(** * The SSE event relay of the Daytona MCP server

    A shallow embedding of the event-stream route ([GET] with its
    [sendEvent], [handleEventStream], [streamCommandLogs],
    [streamSandboxStatus] and [streamSessions]) and of the
    [getSSEConnectionUrl] tool, followed by the properties of the relay.

    JavaScript runs every callback to completion, so one connection is
    modelled as a state machine: [GET] runs the synchronous part of the
    handler and leaves a [State]; every later callback (a settled HTTP
    call, a timer, a chunk of the upstream stream, the abort signal) is one
    [Input] and [step] runs the code the source attaches to it.  An [async]
    function is cut at its [await]: the part before it registers the
    pending call together with a continuation, the part after it is the
    [_resume] definition of the same name. *)

From Stdlib Require Import String Ascii List NArith Bool Arith Lia.
Import ListNotations.
Open Scope string_scope.

Set Warnings "-register-all".

(** ** Values *)

(** JavaScript values that reach an event payload.  [VIso ms] is the string
    [new Date(ms).toISOString()]: ISO-8601 strings in UTC of a fixed width
    are ordered as their instants are, so the instant is kept. *)
Inductive value : Type :=
| VUndefined
| VNull
| VBool (b : bool)
| VNum (n : N)
| VStr (s : string)
| VIso (ms : N)
| VArr (items : list value)
| VObj (fields : list (string * value)).

(** A thrown value: an [Error] instance with its message, or anything
    else. *)
Inductive JsVal : Type :=
| JsError (message : string)
| JsOther (v : value).

(** [error instanceof Error ? error.message : 'Unknown error'] *)
Definition error_message (error : JsVal) : string :=
  match error with
  | JsError message => message
  | JsOther _ => "Unknown error"
  end.

(** A [string | null] as [searchParams.get] returns it. *)
Definition nullable (o : option string) : value :=
  match o with
  | Some s => VStr s
  | None => VNull
  end.

(** A [string | undefined] as an optional tool argument. *)
Definition optional (o : option string) : value :=
  match o with
  | Some s => VStr s
  | None => VUndefined
  end.

(** Truthiness of a string that may be absent: the empty string is falsy. *)
Definition truthy (o : option string) : option string :=
  match o with
  | Some "" => None
  | Some s => Some s
  | None => None
  end.

(** An outbound event: [sendEvent] frames it as
    [event: <name>\ndata: <JSON.stringify(data)>\n\n]. *)
Record Event : Type := mkEvent { ev_name : string; ev_data : value }.

(** ** Text

    A string stands for a JavaScript string by the UTF-8 bytes of its
    text.  A JavaScript string with a lone surrogate has no such bytes and
    is outside of what a [string] stands for here. *)

(** U+FFFD, the replacement character: the bytes EF BF BD. *)
Definition replacement : string :=
  String (ascii_of_N 239) (String (ascii_of_N 191) (String (ascii_of_N 189) "")).

Definition between (lo hi : N) (c : ascii) : bool :=
  ((lo <=? N_of_ascii c) && (N_of_ascii c <=? hi))%N.

(** The bounds of the byte that follows the lead byte [b0]: they exclude
    the overlong forms, the surrogates and what is above U+10FFFF. *)
Definition second_lo (b0 : ascii) : N :=
  (if N_of_ascii b0 =? 224 then 160 else if N_of_ascii b0 =? 240 then 144 else 128)%N.

Definition second_hi (b0 : ascii) : N :=
  (if N_of_ascii b0 =? 237 then 159 else if N_of_ascii b0 =? 244 then 143 else 191)%N.

(** Decoding bytes as UTF-8, as [Buffer.prototype.toString] and the
    parser of [URLSearchParams] do: a well-formed sequence is kept, and
    what is not the start or the continuation of one becomes U+FFFD.  A
    sequence that stops short, at a wrong byte or at the end of the input,
    becomes one U+FFFD and decoding resumes at the byte that stopped it.
    A byte order mark is kept. *)
Fixpoint utf8_decode (s : string) : string :=
  match s with
  | "" => ""
  | String b0 t0 =>
      if between 0 127 b0 then String b0 (utf8_decode t0)
      else if between 194 223 b0 then
        match t0 with
        | String b1 t1 =>
            if between 128 191 b1 then String b0 (String b1 (utf8_decode t1))
            else replacement ++ utf8_decode t0
        | "" => replacement
        end
      else if between 224 239 b0 then
        match t0 with
        | String b1 t1 =>
            if between (second_lo b0) (second_hi b0) b1 then
              match t1 with
              | String b2 t2 =>
                  if between 128 191 b2
                  then String b0 (String b1 (String b2 (utf8_decode t2)))
                  else replacement ++ utf8_decode t1
              | "" => replacement
              end
            else replacement ++ utf8_decode t0
        | "" => replacement
        end
      else if between 240 244 b0 then
        match t0 with
        | String b1 t1 =>
            if between (second_lo b0) (second_hi b0) b1 then
              match t1 with
              | String b2 t2 =>
                  if between 128 191 b2 then
                    match t2 with
                    | String b3 t3 =>
                        if between 128 191 b3
                        then String b0 (String b1 (String b2 (String b3 (utf8_decode t3))))
                        else replacement ++ utf8_decode t2
                    | "" => replacement
                    end
                  else replacement ++ utf8_decode t1
              | "" => replacement
              end
            else replacement ++ utf8_decode t0
        | "" => replacement
        end
      else replacement ++ utf8_decode t0
  end.

(** A [Buffer] of the upstream stream, and [chunk.toString()]: every chunk
    is decoded on its own, so a character cut by the chunk boundary is
    lost on both sides of it. *)
Definition Buffer : Type := list Byte.byte.

Definition Buffer_toString (chunk : Buffer) : string :=
  utf8_decode (string_of_list_byte chunk).

(** [object.<name>] of an object literal, and [data.<name>] of an event
    payload. *)
Fixpoint field (name : string) (fields : list (string * value)) : option value :=
  match fields with
  | [] => None
  | (k, v) :: rest => if k =? name then Some v else field name rest
  end.

(** [error.message], read with no test of what [error] is: the message of
    an [Error], the property of that name of another object, [undefined]
    where there is none (every primitive has none), and nothing for [null]
    and [undefined], where the read throws a [TypeError]. *)
Definition message_of (error : JsVal) : option value :=
  match error with
  | JsError message => Some (VStr message)
  | JsOther VNull => None
  | JsOther VUndefined => None
  | JsOther (VObj fields) =>
      Some match field "message" fields with
           | Some v => v
           | None => VUndefined
           end
  | JsOther _ => Some VUndefined
  end.

Definition cannot_read_message (error : JsVal) : JsVal :=
  match error with
  | JsOther VUndefined =>
      JsError "Cannot read properties of undefined (reading 'message')"
  | _ => JsError "Cannot read properties of null (reading 'message')"
  end.

(** ** The state of one connection *)

Inductive PollKind : Type := Status | Sessions.

(** What awaits a pending [daytonaClient.get]: the first poll of a driver
    (awaited by the driver, itself awaited by [handleEventStream]), a poll
    started by the interval timer (nobody awaits it), or the opening of the
    log stream. *)
Inductive Cont : Type :=
| KInitial (k : PollKind) (sandboxId : string)
| KTick (k : PollKind) (sandboxId : string)
| KLogs (sandboxId sessionId commandId : string).

(** How a pending call settles. *)
Inductive Settled : Type :=
| Resolved (data : value)
| Rejected (e : JsVal).

(** The timer made by [setInterval]: its callback and when it is due. *)
Record Interval : Type := mkInterval {
  iv_kind : PollKind;
  iv_sandboxId : string;
  iv_due : N
}.

(** The closure [() => clearInterval(interval)]. *)
Inductive Cleanup : Type := ClearIntervalFn.

(** The listeners put on [response.data], and whether the upstream stream
    can still deliver to them. *)
Record LogStream : Type := mkLogStream {
  ls_sandboxId : string;
  ls_sessionId : string;
  ls_commandId : string;
  ls_live : bool
}.

(** What the code did, in order. *)
Inductive Effect : Type :=
| Enqueue (e : Event)
| Close
| HttpGet (id : nat) (url : string)
| SetInterval (k : PollKind)
| ClearInterval.

Record State : Type := mkState {
  now : N;                              (* the clock, in milliseconds *)
  closed : bool;                        (* the controller takes no enqueue or close *)
  log : list Effect;
  cleanupFunction : option Cleanup;     (* [let cleanupFunction] of [start] *)
  interval : option Interval;
  next_id : nat;
  pending : list (nat * Cont);          (* calls in flight, oldest first *)
  logs : option LogStream;
  faults : list JsVal                   (* uncaught exceptions and unhandled rejections *)
}.

Definition fresh (t : N) : State :=
  mkState t false [] None None 0 [] None [].

Fixpoint events (l : list Effect) : list Event :=
  match l with
  | [] => []
  | Enqueue e :: l' => e :: events l'
  | _ :: l' => events l'
  end.

(** The events written to the channel so far. *)
Definition emitted (st : State) : list Event := events (log st).

Definition set_now (t : N) (st : State) : State :=
  mkState t (closed st) (log st) (cleanupFunction st) (interval st)
          (next_id st) (pending st) (logs st) (faults st).

Definition set_closed (b : bool) (st : State) : State :=
  mkState (now st) b (log st) (cleanupFunction st) (interval st)
          (next_id st) (pending st) (logs st) (faults st).

Definition add_effect (x : Effect) (st : State) : State :=
  mkState (now st) (closed st) (log st ++ [x]) (cleanupFunction st) (interval st)
          (next_id st) (pending st) (logs st) (faults st).

Definition set_cleanupFunction (c : option Cleanup) (st : State) : State :=
  mkState (now st) (closed st) (log st) c (interval st)
          (next_id st) (pending st) (logs st) (faults st).

Definition set_interval (i : option Interval) (st : State) : State :=
  mkState (now st) (closed st) (log st) (cleanupFunction st) i
          (next_id st) (pending st) (logs st) (faults st).

Definition set_pending (n : nat) (p : list (nat * Cont)) (st : State) : State :=
  mkState (now st) (closed st) (log st) (cleanupFunction st) (interval st)
          n p (logs st) (faults st).

Definition set_logs (l : option LogStream) (st : State) : State :=
  mkState (now st) (closed st) (log st) (cleanupFunction st) (interval st)
          (next_id st) (pending st) l (faults st).

Definition add_fault (e : JsVal) (st : State) : State :=
  mkState (now st) (closed st) (log st) (cleanupFunction st) (interval st)
          (next_id st) (pending st) (logs st) (faults st ++ [e]).

(** ** Code that changes the state and may throw *)

Inductive Outcome (A : Type) : Type :=
| Ret (a : A)
| Throw (e : JsVal).
Arguments Ret {A} a.
Arguments Throw {A} e.

Definition Js (A : Type) : Type := State -> Outcome A * State.

Definition ret {A} (a : A) : Js A := fun st => (Ret a, st).

Definition throw {A} (e : JsVal) : Js A := fun st => (Throw e, st).

Definition bind {A B} (m : Js A) (f : A -> Js B) : Js B :=
  fun st =>
    match m st with
    | (Ret a, st') => f a st'
    | (Throw e, st') => (Throw e, st')
    end.

(** [try { body } catch (error) { handler }] *)
Definition try_catch {A} (body : Js A) (handler : JsVal -> Js A) : Js A :=
  fun st =>
    match body st with
    | (Ret a, st') => (Ret a, st')
    | (Throw e, st') => handler e st'
    end.

Declare Scope js_scope.
Delimit Scope js_scope with js.
Notation "x <- m ;; k" := (bind m (fun x => k))
  (at level 61, m at next level, right associativity) : js_scope.
Notation "m ;; k" := (bind m (fun _ => k))
  (at level 61, right associativity) : js_scope.
Open Scope js_scope.

(** A call whose promise nobody awaits, and a callback run by the event
    loop: what it throws is reported, not propagated. *)
Definition detached (m : Js unit) : State -> State :=
  fun st =>
    match m st with
    | (Ret _, st') => st'
    | (Throw e, st') => add_fault e st'
    end.

Definition floating (m : Js unit) : Js unit :=
  fun st => (Ret tt, detached m st).

(** ** The platform *)

(** [controller.enqueue] and [controller.close] of a
    [ReadableStreamDefaultController] throw a [TypeError] once the stream
    is closed or a close was requested. *)
Definition controller_closed : JsVal :=
  JsError "Invalid state: Controller is already closed".

Definition controller_enqueue (e : Event) : Js unit :=
  fun st =>
    if closed st then (Throw controller_closed, st)
    else (Ret tt, add_effect (Enqueue e) st).

Definition controller_close : Js unit :=
  fun st =>
    if closed st then (Throw controller_closed, st)
    else (Ret tt, set_closed true (add_effect Close st)).

(** [new Date()] *)
Definition Date_now : Js N := fun st => (Ret (now st), st).

(** [daytonaClient.get(url, ...)] followed by [await]: the call is in
    flight and [k] resumes when it settles. *)
Definition daytonaClient_get (url : string) (k : Cont) : Js unit :=
  fun st =>
    (Ret tt,
     add_effect (HttpGet (next_id st) url)
       (set_pending (S (next_id st)) (pending st ++ [(next_id st, k)]) st)).

(** The value of [await]: the response data, or the rejection thrown. *)
Definition awaited (r : Settled) : Js value :=
  match r with
  | Resolved data => ret data
  | Rejected e => throw e
  end.

Definition setInterval (k : PollKind) (sandboxId : string) (pollInterval : N) : Js Cleanup :=
  fun st =>
    (Ret ClearIntervalFn,
     add_effect (SetInterval k)
       (set_interval (Some (mkInterval k sandboxId (now st + pollInterval))) st)).

(** Clearing a timer that is already cleared does nothing. *)
Definition clearInterval : Js unit :=
  fun st => (Ret tt, add_effect ClearInterval (set_interval None st)).

Definition call_cleanup (c : Cleanup) : Js unit :=
  match c with
  | ClearIntervalFn => clearInterval
  end.

(** ** The route: [sendEvent] and the three drivers *)

(** [sendEvent] of [start]: one chunk on the stream's controller, with no
    test of the controller's state. *)
Definition sendEvent (event : string) (data : value) : Js unit :=
  controller_enqueue (mkEvent event data).

(** [pollStatus], after its [await]. *)
Definition pollStatus_resume (sandboxId : string) (r : Settled) : Js unit :=
  try_catch
    (response <- awaited r ;;
     timestamp <- Date_now ;;
     sendEvent "sandbox-status"
       (VObj [("sandboxId", VStr sandboxId);
              ("status", response);
              ("timestamp", VIso timestamp)]))
    (fun error =>
       sendEvent "error"
         (VObj [("message", VStr "Failed to get sandbox status");
                ("error", VStr (error_message error))])).

(** [pollSessions], after its [await]. *)
Definition pollSessions_resume (sandboxId : string) (r : Settled) : Js unit :=
  try_catch
    (response <- awaited r ;;
     timestamp <- Date_now ;;
     sendEvent "sessions-update"
       (VObj [("sandboxId", VStr sandboxId);
              ("sessions", response);
              ("timestamp", VIso timestamp)]))
    (fun error =>
       sendEvent "error"
         (VObj [("message", VStr "Failed to get sessions");
                ("error", VStr (error_message error))])).

Definition poll_url (k : PollKind) (sandboxId : string) : string :=
  match k with
  | Status => "/sandbox/" ++ sandboxId
  | Sessions => "/toolbox/" ++ sandboxId ++ "/toolbox/process/session"
  end.

Definition pollInterval (k : PollKind) : N :=
  match k with
  | Status => 5000
  | Sessions => 10000
  end%N.

Definition poll_resume (k : PollKind) : string -> Settled -> Js unit :=
  match k with
  | Status => pollStatus_resume
  | Sessions => pollSessions_resume
  end.

(** [pollStatus()] and [pollSessions()] up to their [await]; [c] is what
    waits for the call. *)
Definition poll (k : PollKind) (sandboxId : string) (c : Cont) : Js unit :=
  daytonaClient_get (poll_url k sandboxId) c.

Definition pollStatus : string -> Cont -> Js unit := poll Status.

Definition pollSessions : string -> Cont -> Js unit := poll Sessions.

(** [streamSandboxStatus] and [streamSessions] up to [await pollStatus()]
    and [await pollSessions()]. *)
Definition streamSandboxStatus (sandboxId : string) : Js unit :=
  pollStatus sandboxId (KInitial Status sandboxId).

Definition streamSessions (sandboxId : string) : Js unit :=
  pollSessions sandboxId (KInitial Sessions sandboxId).

(** [streamSandboxStatus] after [await pollStatus()] starts: the first poll
    finishes, then the timer is set and the cleanup returned. *)
Definition streamSandboxStatus_resume (sandboxId : string) (r : Settled) : Js Cleanup :=
  pollStatus_resume sandboxId r ;;
  setInterval Status sandboxId (pollInterval Status).

Definition streamSessions_resume (sandboxId : string) (r : Settled) : Js Cleanup :=
  pollSessions_resume sandboxId r ;;
  setInterval Sessions sandboxId (pollInterval Sessions).

Definition logs_url (sandboxId sessionId commandId : string) : string :=
  "/toolbox/" ++ sandboxId ++ "/toolbox/process/session/" ++ sessionId
    ++ "/command/" ++ commandId ++ "/logs".

(** [response.data.on('data' | 'end' | 'error', ...)] *)
Definition attach_listeners (sandboxId sessionId commandId : string) : Js unit :=
  fun st =>
    (Ret tt, set_logs (Some (mkLogStream sandboxId sessionId commandId true)) st).

(** [streamCommandLogs] up to its [await]. *)
Definition streamCommandLogs (sandboxId sessionId commandId : string) : Js unit :=
  daytonaClient_get (logs_url sandboxId sessionId commandId)
    (KLogs sandboxId sessionId commandId).

(** [streamCommandLogs], after its [await]. *)
Definition streamCommandLogs_resume (sandboxId sessionId commandId : string)
    (r : Settled) : Js unit :=
  try_catch
    (_ <- awaited r ;;
     attach_listeners sandboxId sessionId commandId)
    (fun error =>
       sendEvent "error"
         (VObj [("message", VStr "Failed to stream command logs");
                ("error", VStr (error_message error))])).

(** The three listeners of [streamCommandLogs]. *)
Definition on_data (ls : LogStream) (chunk : Buffer) : Js unit :=
  let logData := Buffer_toString chunk in
  timestamp <- Date_now ;;
  sendEvent "log"
    (VObj [("sandboxId", VStr (ls_sandboxId ls));
           ("sessionId", VStr (ls_sessionId ls));
           ("commandId", VStr (ls_commandId ls));
           ("data", VStr logData);
           ("timestamp", VIso timestamp)]).

Definition on_end (ls : LogStream) : Js unit :=
  sendEvent "log-complete"
    (VObj [("sandboxId", VStr (ls_sandboxId ls));
           ("sessionId", VStr (ls_sessionId ls));
           ("commandId", VStr (ls_commandId ls));
           ("message", VStr "Log stream ended")]).

(** The ['error'] listener reads [error.message] as it is, unlike the
    [catch] blocks of this file. *)
Definition read_message (error : JsVal) : Js value :=
  match message_of error with
  | Some v => ret v
  | None => throw (cannot_read_message error)
  end.

Definition on_error (ls : LogStream) (error : JsVal) : Js unit :=
  message <- read_message error ;;
  sendEvent "log-error"
    (VObj [("sandboxId", VStr (ls_sandboxId ls));
           ("sessionId", VStr (ls_sessionId ls));
           ("commandId", VStr (ls_commandId ls));
           ("error", message)]).

(** ** The route: [handleEventStream] and [GET] *)

(** The [catch] of [handleEventStream]. *)
Definition stream_error (error : JsVal) : Js unit :=
  sendEvent "error"
    (VObj [("message", VStr "Stream error");
           ("error", VStr (error_message error))]).

(** [handleEventStream] up to the first [await] of the chosen branch. *)
Definition handleEventStream (sandboxId : string) (sessionId commandId : option string)
    (eventType : string) : Js unit :=
  try_catch
    (if eventType =? "logs" then
       match truthy sessionId, truthy commandId with
       | Some sessionId', Some commandId' =>
           streamCommandLogs sandboxId sessionId' commandId'
       | _, _ =>
           sendEvent "error"
             (VObj [("message", VStr "sessionId and commandId required for logs streaming")])
       end
     else if eventType =? "sandbox-status" then
       streamSandboxStatus sandboxId
     else if eventType =? "sessions" then
       streamSessions sandboxId
     else
       sendEvent "error"
         (VObj [("message", VStr ("Unknown event type: " ++ eventType))]))
    stream_error.

(** [cleanupFunction = await ...] *)
Definition assign_cleanupFunction (c : Cleanup) : Js unit :=
  fun st => (Ret tt, set_cleanupFunction (Some c) st).

(** What runs when a pending call settles: for the first poll and for the
    log stream the rest of the driver inside the [try] of
    [handleEventStream], for a poll of the timer the rest of the poll alone.
    *)
Definition resume (k : Cont) (r : Settled) : Js unit :=
  match k with
  | KInitial Status sandboxId =>
      try_catch
        (c <- streamSandboxStatus_resume sandboxId r ;; assign_cleanupFunction c)
        stream_error
  | KInitial Sessions sandboxId =>
      try_catch
        (c <- streamSessions_resume sandboxId r ;; assign_cleanupFunction c)
        stream_error
  | KLogs sandboxId sessionId commandId =>
      try_catch (streamCommandLogs_resume sandboxId sessionId commandId r) stream_error
  | KTick k' sandboxId => poll_resume k' sandboxId r
  end.

(** Teardown: [if (cleanupFunction) { cleanupFunction(); }] *)
Definition teardown : Js unit :=
  fun st =>
    match cleanupFunction st with
    | Some cleanup => call_cleanup cleanup st
    | None => (Ret tt, st)
    end.

(** The listener of [request.signal]'s [abort]. *)
Definition on_abort : Js unit :=
  teardown ;;
  sendEvent "disconnected" (VObj [("message", VStr "Client disconnected")]) ;;
  controller_close.

(** [start(controller)] of the stream. *)
Definition start (sandboxId : string) (sessionId commandId : option string)
    (eventType : string) : Js unit :=
  sendEvent "connected"
    (VObj [("message", VStr "SSE connection established");
           ("sandboxId", VStr sandboxId);
           ("sessionId", nullable sessionId);
           ("commandId", nullable commandId);
           ("eventType", VStr eventType)]) ;;
  floating (handleEventStream sandboxId sessionId commandId eventType).

(** [searchParams.get(name)]: the first value of that name, or [null]. *)
Fixpoint searchParams_get (name : string) (params : list (string * string)) : option string :=
  match params with
  | [] => None
  | (k, v) :: rest => if k =? name then Some v else searchParams_get name rest
  end.

Inductive Response : Type :=
| PlainResponse (status : nat) (body : string)
| EventStream (headers : list (string * string)) (st : State).

Definition sse_headers : list (string * string) :=
  [("Content-Type", "text/event-stream");
   ("Cache-Control", "no-cache");
   ("Connection", "keep-alive");
   ("Access-Control-Allow-Origin", "*");
   ("Access-Control-Allow-Methods", "GET, OPTIONS");
   ("Access-Control-Allow-Headers", "Content-Type")].

(** [searchParams.get('eventType') || 'sandbox-status'] *)
Definition eventType_of (params : list (string * string)) : string :=
  match truthy (searchParams_get "eventType" params) with
  | Some e => e
  | None => "sandbox-status"
  end.

(** [GET]: the request arrives at instant [t] with the query [params]. *)
Definition GET (t : N) (params : list (string * string)) : Response :=
  let sandboxId := searchParams_get "sandboxId" params in
  let sessionId := searchParams_get "sessionId" params in
  let commandId := searchParams_get "commandId" params in
  let eventType := eventType_of params in
  match truthy sandboxId with
  | None => PlainResponse 400 "Missing sandboxId parameter"
  | Some sandboxId' =>
      EventStream sse_headers
        (detached (start sandboxId' sessionId commandId eventType) (fresh t))
  end.

(** ** The event loop *)

(** What the environment can do to a connection.  A pending call settles
    once; the timer of [setInterval] is run only when it is due and is then
    due again one period later; the upstream stream sends ['data'] until
    its ['end'] or ['error']; the reader of the response body may cancel
    it, which closes the stream under the controller. *)
Inductive Input : Type :=
| Elapse (d : N)                       (* time passes *)
| FetchDone (id : nat) (r : Settled)   (* a pending call settles *)
| TimerFire                            (* the interval timer is run *)
| StreamData (chunk : Buffer)          (* 'data' of the upstream stream *)
| StreamEnd                            (* 'end' *)
| StreamError (e : JsVal)              (* 'error' *)
| Abort                                (* 'abort' of [request.signal] *)
| Cancel.                              (* the reader cancels the response body *)

Fixpoint take_pending (id : nat) (p : list (nat * Cont)) : option (Cont * list (nat * Cont)) :=
  match p with
  | [] => None
  | (i, k) :: rest =>
      if Nat.eqb i id then Some (k, rest)
      else match take_pending id rest with
           | Some (k', rest') => Some (k', (i, k) :: rest')
           | None => None
           end
  end.

Definition cont_of (iv : Interval) : Cont := KTick (iv_kind iv) (iv_sandboxId iv).

(** One turn of the event loop: the callback the source attached to the
    input runs to completion, with the promise continuations it wakes.  An
    input nothing listens to changes nothing. *)
Definition step (i : Input) (st : State) : State :=
  match i with
  | Elapse d => set_now (now st + d) st
  | FetchDone id r =>
      match take_pending id (pending st) with
      | Some (k, rest) =>
          detached (resume k r) (set_pending (next_id st) rest st)
      | None => st
      end
  | TimerFire =>
      match interval st with
      | Some iv =>
          if (iv_due iv <=? now st)%N then
            detached (poll (iv_kind iv) (iv_sandboxId iv) (cont_of iv))
              (set_interval
                 (Some (mkInterval (iv_kind iv) (iv_sandboxId iv)
                          (now st + pollInterval (iv_kind iv)))) st)
          else st
      | None => st
      end
  | StreamData chunk =>
      match logs st with
      | Some ls => if ls_live ls then detached (on_data ls chunk) st else st
      | None => st
      end
  | StreamEnd =>
      match logs st with
      | Some ls =>
          if ls_live ls then
            detached (on_end ls)
              (set_logs (Some (mkLogStream (ls_sandboxId ls) (ls_sessionId ls)
                                 (ls_commandId ls) false)) st)
          else st
      | None => st
      end
  | StreamError e =>
      match logs st with
      | Some ls =>
          if ls_live ls then
            detached (on_error ls e)
              (set_logs (Some (mkLogStream (ls_sandboxId ls) (ls_sessionId ls)
                                 (ls_commandId ls) false)) st)
          else st
      | None => st
      end
  | Abort => detached on_abort st
  | Cancel => set_closed true st
  end.

Definition run (tr : list Input) (st : State) : State :=
  fold_left (fun s i => step i s) tr st.

(** The state of the connection [GET] opens, if it opens one. *)
Definition connect (t : N) (params : list (string * string)) : option State :=
  match GET t params with
  | EventStream _ st => Some st
  | PlainResponse _ _ => None
  end.

Definition response_events (r : Response) : list Event :=
  match r with
  | EventStream _ st => emitted st
  | PlainResponse _ _ => []
  end.

(** ** The [getSSEConnectionUrl] tool *)

(** [z.enum(['logs', 'sandbox-status', 'sessions'])] *)
Inductive EventType : Type := Logs | SandboxStatus | SessionsList.

Definition eventType_name (e : EventType) : string :=
  match e with
  | Logs => "logs"
  | SandboxStatus => "sandbox-status"
  | SessionsList => "sessions"
  end.

Record ToolArgs : Type := mkToolArgs {
  arg_sandboxId : string;
  arg_sessionId : option string;
  arg_commandId : option string;
  arg_eventType : option EventType
}.

(** The serializer of [URLSearchParams]: letters, digits and [*-._] stay,
    a space becomes [+], every other byte becomes [%XX]. *)
Definition form_safe (c : ascii) : bool :=
  let n := N_of_ascii c in
  ((48 <=? n) && (n <=? 57) || (65 <=? n) && (n <=? 90) || (97 <=? n) && (n <=? 122)
   || (n =? 42) || (n =? 45) || (n =? 46) || (n =? 95))%N.

Definition hex_digit (n : N) : ascii :=
  if (n <? 10)%N then ascii_of_N (48 + n) else ascii_of_N (55 + n).

Definition form_encode_byte (c : ascii) : string :=
  if form_safe c then String c ""
  else if (N_of_ascii c =? 32)%N then "+"
  else String "%" (String (hex_digit (N_of_ascii c / 16))
                     (String (hex_digit (N_of_ascii c mod 16)) "")).

Fixpoint form_encode (s : string) : string :=
  match s with
  | "" => ""
  | String c rest => form_encode_byte c ++ form_encode rest
  end.

Fixpoint URLSearchParams_toString (params : list (string * string)) : string :=
  match params with
  | [] => ""
  | [(k, v)] => form_encode k ++ "=" ++ form_encode v
  | (k, v) :: rest =>
      form_encode k ++ "=" ++ form_encode v ++ "&" ++ URLSearchParams_toString rest
  end.

(** [...(x && { x })]: the entry is there when [x] is a non-empty string. *)
Definition spread (name : string) (x : option string) : list (string * string) :=
  match truthy x with
  | Some v => [(name, v)]
  | None => []
  end.

(** [eventType = 'sandbox-status'] of the parameter list. *)
Definition eventType_arg (a : ToolArgs) : string :=
  match arg_eventType a with
  | Some e => eventType_name e
  | None => "sandbox-status"
  end.

(** The entries of [new URLSearchParams({ ... })], in the order of the
    object literal. *)
Definition sse_params (a : ToolArgs) : list (string * string) :=
  ([("sandboxId", arg_sandboxId a)]
     ++ spread "sessionId" (arg_sessionId a)
     ++ spread "commandId" (arg_commandId a)
     ++ [("eventType", eventType_arg a)])%list.

(** [process.env.VERCEL_URL ? `https://${...}` : 'http://localhost:3000'] *)
Definition baseUrl (VERCEL_URL : option string) : string :=
  match truthy VERCEL_URL with
  | Some host => "https://" ++ host
  | None => "http://localhost:3000"
  end.

Definition sseUrl (VERCEL_URL : option string) (a : ToolArgs) : string :=
  baseUrl VERCEL_URL ++ "/sse?" ++ URLSearchParams_toString (sse_params a).

(** What a tool returns: the text block of [formatResponse] (its title, and
    the data that [JSON.stringify] prints under it) or the one of
    [handleApiError]. *)
Inductive ToolResult : Type :=
| Formatted (title : string) (data : value)
| ApiError (errorMessage : string).

Definition formatResponse (title : string) (data : value) : ToolResult :=
  Formatted title data.

(** The handler of the tool.  Nothing in its [try] throws, so its [catch]
    with [handleApiError] is never entered. *)
Definition getSSEConnectionUrl (VERCEL_URL : option string) (a : ToolArgs) : ToolResult :=
  let sseUrl := sseUrl VERCEL_URL a in
  formatResponse "SSE Connection URL"
    (VObj [("url", VStr sseUrl);
           ("sandboxId", VStr (arg_sandboxId a));
           ("sessionId", optional (arg_sessionId a));
           ("commandId", optional (arg_commandId a));
           ("eventType", VStr (eventType_arg a));
           ("usage",
            VObj [("description",
                   VStr "Connect to this URL using EventSource for real-time streaming");
                  ("example",
                   VStr ("const eventSource = new EventSource('" ++ sseUrl ++ "');"));
                  ("events",
                   VObj [("logs",
                          VStr "Stream command execution logs (requires sessionId and commandId)");
                         ("sandbox-status",
                          VStr "Stream sandbox status updates every 5 seconds");
                         ("sessions",
                          VStr "Stream active sessions updates every 10 seconds")])])]).

(** The URL the tool returned, read back from its result. *)
Definition result_url (r : ToolResult) : option string :=
  match r with
  | Formatted _ (VObj (("url", VStr u) :: _)) => Some u
  | _ => None
  end.

(** ** The events of the vocabulary *)

Definition connected_event (sandboxId : string) (sessionId commandId : option string)
    (eventType : string) : Event :=
  mkEvent "connected"
    (VObj [("message", VStr "SSE connection established");
           ("sandboxId", VStr sandboxId);
           ("sessionId", nullable sessionId);
           ("commandId", nullable commandId);
           ("eventType", VStr eventType)]).

Definition disconnected_event : Event :=
  mkEvent "disconnected" (VObj [("message", VStr "Client disconnected")]).

Definition poll_success (k : PollKind) (sandboxId : string) (data : value) (t : N) : Event :=
  match k with
  | Status =>
      mkEvent "sandbox-status"
        (VObj [("sandboxId", VStr sandboxId); ("status", data); ("timestamp", VIso t)])
  | Sessions =>
      mkEvent "sessions-update"
        (VObj [("sandboxId", VStr sandboxId); ("sessions", data); ("timestamp", VIso t)])
  end.

Definition poll_failure (k : PollKind) (e : JsVal) : Event :=
  mkEvent "error"
    (VObj [("message",
            VStr match k with
                 | Status => "Failed to get sandbox status"
                 | Sessions => "Failed to get sessions"
                 end);
           ("error", VStr (error_message e))]).

Definition poll_event (k : PollKind) (sandboxId : string) (t : N) (r : Settled) : Event :=
  match r with
  | Resolved data => poll_success k sandboxId data t
  | Rejected e => poll_failure k e
  end.

Definition log_event (ls : LogStream) (chunk : Buffer) (t : N) : Event :=
  mkEvent "log"
    (VObj [("sandboxId", VStr (ls_sandboxId ls));
           ("sessionId", VStr (ls_sessionId ls));
           ("commandId", VStr (ls_commandId ls));
           ("data", VStr (Buffer_toString chunk));
           ("timestamp", VIso t)]).

Definition log_complete_event (ls : LogStream) : Event :=
  mkEvent "log-complete"
    (VObj [("sandboxId", VStr (ls_sandboxId ls));
           ("sessionId", VStr (ls_sessionId ls));
           ("commandId", VStr (ls_commandId ls));
           ("message", VStr "Log stream ended")]).

Definition log_error_event (ls : LogStream) (message : value) : Event :=
  mkEvent "log-error"
    (VObj [("sandboxId", VStr (ls_sandboxId ls));
           ("sessionId", VStr (ls_sessionId ls));
           ("commandId", VStr (ls_commandId ls));
           ("error", message)]).

Definition logs_failure_event (e : JsVal) : Event :=
  mkEvent "error"
    (VObj [("message", VStr "Failed to stream command logs");
           ("error", VStr (error_message e))]).

Definition missing_ids_event : Event :=
  mkEvent "error"
    (VObj [("message", VStr "sessionId and commandId required for logs streaming")]).

(** The state after the guarded call of [cleanupFunction] in the abort
    listener. *)
Definition cleaned (st : State) : State :=
  match cleanupFunction st with
  | Some _ => add_effect ClearInterval (set_interval None st)
  | None => st
  end.

(** The timer as [setInterval] leaves it at instant [t]. *)
Definition timer (k : PollKind) (sandboxId : string) (t : N) : Interval :=
  mkInterval k sandboxId (t + pollInterval k).


(** ** Reading states and traces *)

Definition timestamp_of (e : Event) : option N :=
  match ev_data e with
  | VObj fields =>
      match field "timestamp" fields with
      | Some (VIso t) => Some t
      | _ => None
      end
  | _ => None
  end.

(** The timestamps of the events that carry one, in emission order. *)
Fixpoint timestamps (evs : list Event) : list N :=
  match evs with
  | [] => []
  | e :: rest =>
      match timestamp_of e with
      | Some t => t :: timestamps rest
      | None => timestamps rest
      end
  end.

Fixpoint nondecreasing (l : list N) : Prop :=
  match l with
  | [] => True
  | a :: rest =>
      match rest with
      | [] => True
      | b :: _ => (a <= b)%N
      end /\ nondecreasing rest
  end.

Fixpoint increasing (l : list N) : Prop :=
  match l with
  | [] => True
  | a :: rest =>
      match rest with
      | [] => True
      | b :: _ => (a < b)%N
      end /\ increasing rest
  end.

Definition named (name : string) (e : Event) : bool := ev_name e =? name.

Definition count_named (name : string) (evs : list Event) : nat :=
  length (filter (named name) evs).

(** The calls in flight. *)
Definition in_flight (st : State) : nat := length (pending st).

Definition is_teardown (i : Input) : bool :=
  match i with
  | Abort | Cancel => true
  | _ => false
  end.

(** A trace in which the client stays connected. *)
Definition undisturbed (tr : list Input) : Prop :=
  Forall (fun i => is_teardown i = false) tr.

Definition is_abort (i : Input) : bool :=
  match i with
  | Abort => true
  | _ => false
  end.

(** The upstream stream delivers the chunks, each after a delay. *)
Fixpoint deliver (chunks : list (N * Buffer)) : list Input :=
  match chunks with
  | [] => []
  | (d, chunk) :: rest => Elapse d :: StreamData chunk :: deliver rest
  end.

(** The [log] events of chunks that start arriving at instant [t]. *)
Fixpoint log_events (ls : LogStream) (t : N) (chunks : list (N * Buffer)) : list Event :=
  match chunks with
  | [] => []
  | (d, chunk) :: rest => log_event ls chunk (t + d) :: log_events ls (t + d) rest
  end.

(** The kind of poll a value of [eventType] selects. *)
Definition poll_kind_of (eventType : string) : option PollKind :=
  if eventType =? "sandbox-status" then Some Status
  else if eventType =? "sessions" then Some Sessions
  else None.

Open Scope list_scope.

(** ** Invariants of a connection *)

(** An event a driver or the supervisor writes while the channel lives. *)
Definition inner (e : Event) : Prop :=
  ev_name e <> "connected" /\ ev_name e <> "disconnected".

(** [emits st st' evs]: going from [st] to [st'] wrote [evs], under the
    rules every handler obeys. *)
Record emits (st st' : State) (evs : list Event) : Prop := {
  em_events : emitted st' = emitted st ++ evs;
  em_closed : closed st = true -> evs = [] /\ closed st' = true;
  em_shape : Forall inner evs /\ closed st' = closed st
             \/ evs = [disconnected_event] /\ closed st' = true
             \/ evs = [] /\ closed st' = true;
  em_stamp : forall t, In t (timestamps evs) -> t = now st;
  em_clock : (now st <= now st')%N
}.

(** The channel so far: the handshake, events of the drivers, and at the
    end, once the channel is closed, perhaps the farewell. *)
Definition framed (hello : Event) (st : State) : Prop :=
  exists body fin,
    emitted st = hello :: body ++ fin /\ Forall inner body /\
    (fin = [] \/ fin = [disconnected_event] /\ closed st = true).

(** The timestamps written so far never decrease and none lies ahead of
    the clock. *)
Definition in_time (st : State) : Prop :=
  nondecreasing (timestamps (emitted st)) /\
  Forall (fun x => (x <= now st)%N) (timestamps (emitted st)).

(** A poll subscription only ever has polls of its own kind in flight, and
    its timer, if set, is the one of its driver. *)
Definition polling (k : PollKind) (sandboxId : string) (st : State) : Prop :=
  Forall (fun p => snd p = KInitial k sandboxId \/ snd p = KTick k sandboxId) (pending st)
  /\ (forall iv, interval st = Some iv -> iv_kind iv = k /\ iv_sandboxId iv = sandboxId)
  /\ logs st = None.

(** No call in flight, no timer, no live upstream stream and no cleanup
    recorded: only the abort listener can still write. *)
Definition quiet (st : State) : Prop :=
  pending st = [] /\ interval st = None /\ cleanupFunction st = None /\
  (forall ls, logs st = Some ls -> ls_live ls = false).

(** A poll subscription while the client stays connected: the channel is
    open, and either the first poll is in flight and no timer is set yet, or
    the timer is set and every call in flight is one of its polls. *)
Definition steady (k : PollKind) (sandboxId : string) (st : State) : Prop :=
  closed st = false /\ logs st = None /\
  (interval st = None /\ pending st = [(0, KInitial k sandboxId)]
   \/ exists due,
       interval st = Some (mkInterval k sandboxId due) /\
       Forall (fun p => snd p = KTick k sandboxId) (pending st)).

(** A status subscription whose upstream is slow: the first poll answers at
    once, then two periods pass and the timer runs twice while neither of
    its polls has been answered. *)
Definition slow_upstream : list Input :=
  [FetchDone 0 (Resolved (VStr "started"));
   Elapse 5000; TimerFire;
   Elapse 5000; TimerFire].

(** The two polls are then answered in the same millisecond, the later one
    first. *)
Definition late_answers : list Input :=
  [FetchDone 2 (Resolved (VStr "second poll"));
   FetchDone 1 (Resolved (VStr "first poll"))].


(** A log subscription whose upstream stream is open and delivering. *)
Definition streaming (ls : LogStream) (st : State) : Prop :=
  closed st = false /\ logs st = Some ls /\ ls_live ls = true /\
  pending st = [] /\ interval st = None /\ cleanupFunction st = None.

(** A poll subscription after the abort listener ran: the channel is
    closed and no timer is set. *)
Definition stopped (k : PollKind) (sandboxId : string) (st : State) : Prop :=
  closed st = true /\ interval st = None /\ polling k sandboxId st.

(** A status subscription just accepted: [connected] is written and the
    first poll is in flight. *)
Definition status_session : State :=
  mkState 0 false
    [Enqueue (connected_event "sbx-1" None None "sandbox-status");
     HttpGet 0 "/sandbox/sbx-1"]
    None None 1 [(0, KInitial Status "sbx-1")] None [].

(** A log subscription just accepted: the call that opens the upstream
    stream is in flight. *)
Definition logs_session : State :=
  mkState 0 false
    [Enqueue (connected_event "sbx-1" (Some "sess-1") (Some "cmd-1") "logs");
     HttpGet 0 "/toolbox/sbx-1/toolbox/process/session/sess-1/command/cmd-1/logs"]
    None None 1 [(0, KLogs "sbx-1" "sess-1" "cmd-1")] None [].

(** In a poll subscription a timer is never set without its cleanup being
    recorded. *)
Definition supervised (k : PollKind) (sandboxId : string) (st : State) : Prop :=
  polling k sandboxId st /\
  (interval st = None \/ cleanupFunction st = Some ClearIntervalFn).

(** One optional parameter of the query string. *)
Definition query_part (name : string) (x : option string) : string :=
  match truthy x with
  | Some v => ("&" ++ name ++ "=" ++ form_encode v)%string
  | None => ""
  end.

(** ** More of the vocabulary and of the effects *)

(** The [error] event of the [default] branch of [handleEventStream]. *)
Definition unknown_type_event (eventType : string) : Event :=
  mkEvent "error" (VObj [("message", VStr ("Unknown event type: " ++ eventType)%string)]).

(** The URLs of the upstream calls made so far, in order. *)
Fixpoint calls (l : list Effect) : list string :=
  match l with
  | [] => []
  | HttpGet _ url :: l' => url :: calls l'
  | _ :: l' => calls l'
  end.

(** How many times [setInterval] was called. *)
Fixpoint timers_set (l : list Effect) : nat :=
  match l with
  | [] => 0
  | SetInterval _ :: l' => S (timers_set l')
  | _ :: l' => timers_set l'
  end.

(** A trace without the abort signal. *)
Definition unaborted (tr : list Input) : Prop :=
  Forall (fun i => is_abort i = false) tr.

(** Either no timer was ever set and at most the first call is in flight,
    or the first poll is over: then no call in flight can set a timer. *)
Definition single_timer (st : State) : Prop :=
  timers_set (log st) = 0 /\ interval st = None /\
  (pending st = [] \/ exists c, pending st = [(0, c)])
  \/ timers_set (log st) <= 1 /\
     Forall (fun p => forall k sandboxId, snd p <> KInitial k sandboxId) (pending st).

(** An input the listeners can read: the value of a stream ['error'] is
    neither [null] nor [undefined], so that [error.message] is a read and
    not a [TypeError]. *)
Definition readable (i : Input) : Prop :=
  match i with
  | StreamError e => message_of e <> None
  | _ => True
  end.

(** [m] run [n] times in a row. *)
Fixpoint repeated (n : nat) (m : Js unit) : Js unit :=
  match n with
  | 0 => ret tt
  | S n' => m ;; repeated n' m
  end.

(** A log subscription: no timer, no cleanup, and nothing in flight but the
    call that opens the stream. *)
Definition log_only (st : State) : Prop :=
  interval st = None /\ cleanupFunction st = None /\
  Forall (fun p => exists sandboxId sessionId commandId,
                     snd p = KLogs sandboxId sessionId commandId) (pending st).

(** ** The query string as the route reads it *)

(** [new URL(request.url).searchParams] parses the query the way
    [URLSearchParams] wrote it: the query is cut at every [&], each
    non-empty piece at its first [=], and in name and value a [+] becomes a
    space and [%XX] the byte it names.  The bytes are then decoded as
    UTF-8, with U+FFFD for what is not well formed. *)
Definition is_hex (c : ascii) : bool :=
  let n := N_of_ascii c in
  ((48 <=? n) && (n <=? 57) || (65 <=? n) && (n <=? 70) || (97 <=? n) && (n <=? 102))%N.

Definition hex_value (c : ascii) : N :=
  let n := N_of_ascii c in
  (if n <=? 57 then n - 48 else if n <=? 70 then n - 55 else n - 87)%N.

Fixpoint percent_decode (s : string) : string :=
  match s with
  | EmptyString => EmptyString
  | String c t =>
      match t with
      | String a (String b rest) =>
          if ((c =? "%")%char && is_hex a && is_hex b)%bool
          then String (ascii_of_N (16 * hex_value a + hex_value b)) (percent_decode rest)
          else String c (percent_decode t)
      | _ => String c (percent_decode t)
      end
  end.

Fixpoint plus_to_space (s : string) : string :=
  match s with
  | EmptyString => EmptyString
  | String c t => String (if (c =? "+")%char then " "%char else c) (plus_to_space t)
  end.

Definition form_unescape (s : string) : string := percent_decode (plus_to_space s).

Definition form_decode (s : string) : string := utf8_decode (form_unescape s).

(** The pieces of [s] between the occurrences of [sep]. *)
Fixpoint split_on (sep : ascii) (s : string) : list string :=
  match s with
  | EmptyString => [EmptyString]
  | String c t =>
      if (c =? sep)%char then EmptyString :: split_on sep t
      else match split_on sep t with
           | piece :: pieces => String c piece :: pieces
           | [] => [String c EmptyString]
           end
  end.

(** [s] up to its first [sep], and what follows it if there is one. *)
Fixpoint cut (sep : ascii) (s : string) : string * option string :=
  match s with
  | EmptyString => (EmptyString, None)
  | String c t =>
      if (c =? sep)%char then (EmptyString, Some t)
      else let (before, after) := cut sep t in (String c before, after)
  end.

Definition parse_piece (piece : string) : list (string * string) :=
  match piece with
  | EmptyString => []
  | _ =>
      let (name, value) := cut "=" piece in
      [(form_decode name,
        form_decode match value with Some v => v | None => EmptyString end)]
  end.

Definition URLSearchParams_parse (query : string) : list (string * string) :=
  flat_map parse_piece (split_on "&" query).

(** Text the decoder keeps as it is: well-formed UTF-8. *)
Definition well_formed (s : string) : Prop := utf8_decode s = s.

Definition well_formed_params (params : list (string * string)) : Prop :=
  Forall (fun p => well_formed (fst p) /\ well_formed (snd p)) params.

(** The arguments of [getSSEConnectionUrl] are well-formed text. *)
Definition well_formed_args (a : ToolArgs) : Prop :=
  well_formed (arg_sandboxId a) /\
  (forall s, arg_sessionId a = Some s -> well_formed s) /\
  (forall c, arg_commandId a = Some c -> well_formed c).

(** The letter e with an acute accent, U+00E9: the bytes C3 A9. *)
Definition e_acute : string := String (ascii_of_N 195) (String (ascii_of_N 169) "").

(** What the parser makes of parameters written by the serializer. *)
Definition decoded (params : list (string * string)) : list (string * string) :=
  map (fun p => (utf8_decode (fst p), utf8_decode (snd p))) params.



(** [s] has no occurrence of [sep]. *)
Fixpoint lacks (sep : ascii) (s : string) : bool :=
  match s with
  | EmptyString => true
  | String c t => negb (c =? sep)%char && lacks sep t
  end.

(** Every character of [s] is one the serializer leaves as it is. *)
Fixpoint all_safe (s : string) : bool :=
  match s with
  | EmptyString => true
  | String c t => form_safe c && all_safe t
  end.

(** ** The SSE URLs the other tools write by hand *)

(** [result.sseMonitoring.sandboxStatus] and [.sessions] of [getSandbox],
    [executeCommand], [listSessions] and [executeSessionCommand]: the
    identifier is put into the template as it is. *)
Definition sseMonitoring_sandboxStatus (VERCEL_URL : option string)
    (sandboxId : string) : string :=
  (baseUrl VERCEL_URL ++ "/sse?sandboxId=" ++ sandboxId
     ++ "&eventType=sandbox-status")%string.

Definition sseMonitoring_sessions (VERCEL_URL : option string)
    (sandboxId : string) : string :=
  (baseUrl VERCEL_URL ++ "/sse?sandboxId=" ++ sandboxId ++ "&eventType=sessions")%string.

(** [sseUrl] of [getSessionCommandLogs]. *)
Definition getSessionCommandLogs_sseUrl (VERCEL_URL : option string)
    (sandboxId sessionId commandId : string) : string :=
  (baseUrl VERCEL_URL ++ "/sse?sandboxId=" ++ sandboxId ++ "&sessionId=" ++ sessionId
     ++ "&commandId=" ++ commandId ++ "&eventType=logs")%string.

(** [getSessionCommandLogs] when [useSSE] is set: it returns before any
    upstream call. *)
Definition getSessionCommandLogs_useSSE (VERCEL_URL : option string)
    (sandboxId sessionId commandId : string) : ToolResult :=
  let sseUrl := getSessionCommandLogs_sseUrl VERCEL_URL sandboxId sessionId commandId in
  formatResponse ("Real-time Logs for Command " ++ commandId)%string
    (VObj [("message", VStr "Use SSE for real-time log streaming");
           ("sseUrl", VStr sseUrl);
           ("usage",
            VObj [("description", VStr "Connect to the SSE URL for live log streaming");
                  ("example",
                   VStr ("const eventSource = new EventSource('" ++ sseUrl ++ "');")%string);
                  ("events", VArr [VStr "log"; VStr "log-complete"; VStr "log-error"])]);
           ("alternative", VStr "Set useSSE=false to get static logs")]).

(** The query of a URL of this server: what follows [/sse?]. *)
Definition raw_logs_query (sandboxId sessionId commandId : string) : string :=
  ("sandboxId=" ++ sandboxId ++ "&sessionId=" ++ sessionId
     ++ "&commandId=" ++ commandId ++ "&eventType=logs")%string.

(** The upstream call the arguments of [getSSEConnectionUrl] ask for. *)
Definition asked_call (a : ToolArgs) : list string :=
  match arg_eventType a with
  | None | Some SandboxStatus => [poll_url Status (arg_sandboxId a)]
  | Some SessionsList => [poll_url Sessions (arg_sandboxId a)]
  | Some Logs =>
      match truthy (arg_sessionId a), truthy (arg_commandId a) with
      | Some s, Some c => [logs_url (arg_sandboxId a) s c]
      | _, _ => []
      end
  end.

(** The number of upstream calls made so far. *)
Definition call_count (st : State) : N := N.of_nat (length (calls (log st))).

(** A poll subscription opened at [t0] keeps its pace: every call but the
    first is at least one period after the one before, and the timer is
    never due earlier than that. *)
Definition paced (k : PollKind) (t0 : N) (st : State) : Prop :=
  (call_count st * pollInterval k + t0 <= now st + pollInterval k)%N /\
  (forall iv, interval st = Some iv ->
              (call_count st * pollInterval k + t0 <= iv_due iv)%N).

(** The names a poll subscription of kind [k] can put on the channel. *)
Definition poll_names (k : PollKind) : list string :=
  ["connected";
   match k with Status => "sandbox-status" | Sessions => "sessions-update" end;
   "error"; "disconnected"].

(** The characters of a written query: those the serializer keeps, and
    [+], [%], [&] and [=]. *)
Definition query_char (c : ascii) : bool :=
  form_safe c || (c =? "+")%char || (c =? "%")%char || (c =? "&")%char || (c =? "=")%char.

Fixpoint only (p : ascii -> bool) (s : string) : bool :=
  match s with
  | EmptyString => true
  | String c t => p c && only p t
  end.

(** Splits a goal into its atoms and closes the routine ones. *)
Local Ltac fin :=
  repeat split; intros; simpl in *; try discriminate; try congruence; auto.

(** ** Equations of the handlers *)

Section Equations.

Variable st : State.

Lemma sendEvent_open event data :
  closed st = false ->
  sendEvent event data st = (Ret tt, add_effect (Enqueue (mkEvent event data)) st).
Proof. intros H. unfold sendEvent, controller_enqueue. rewrite H. reflexivity. Qed.

Lemma sendEvent_closed event data :
  closed st = true ->
  sendEvent event data st = (Throw controller_closed, st).
Proof. intros H. unfold sendEvent, controller_enqueue. rewrite H. reflexivity. Qed.

Lemma poll_resume_open k sandboxId r :
  closed st = false ->
  poll_resume k sandboxId r st
  = (Ret tt, add_effect (Enqueue (poll_event k sandboxId (now st) r)) st).
Proof.
  intros H. destruct st; simpl in H; subst.
  destruct k, r; reflexivity.
Qed.

Lemma poll_resume_closed k sandboxId r :
  closed st = true ->
  poll_resume k sandboxId r st = (Throw controller_closed, st).
Proof.
  intros H. destruct st; simpl in H; subst.
  destruct k, r; reflexivity.
Qed.

Lemma tick_open k sandboxId r :
  closed st = false ->
  detached (resume (KTick k sandboxId) r) st
  = add_effect (Enqueue (poll_event k sandboxId (now st) r)) st.
Proof.
  intros H. unfold detached, resume. rewrite poll_resume_open by assumption.
  reflexivity.
Qed.

Lemma tick_closed k sandboxId r :
  closed st = true ->
  detached (resume (KTick k sandboxId) r) st = add_fault controller_closed st.
Proof.
  intros H. unfold detached, resume. rewrite poll_resume_closed by assumption.
  reflexivity.
Qed.

Lemma initial_open k sandboxId r :
  closed st = false ->
  detached (resume (KInitial k sandboxId) r) st
  = set_cleanupFunction (Some ClearIntervalFn)
      (add_effect (SetInterval k)
         (set_interval (Some (timer k sandboxId (now st)))
            (add_effect (Enqueue (poll_event k sandboxId (now st) r)) st))).
Proof.
  intros H. destruct st; simpl in H; subst.
  destruct k, r; reflexivity.
Qed.

Lemma initial_closed k sandboxId r :
  closed st = true ->
  detached (resume (KInitial k sandboxId) r) st = add_fault controller_closed st.
Proof.
  intros H. destruct st; simpl in H; subst.
  destruct k, r; reflexivity.
Qed.

Lemma logs_resolved sandboxId sessionId commandId data :
  detached (resume (KLogs sandboxId sessionId commandId) (Resolved data)) st
  = set_logs (Some (mkLogStream sandboxId sessionId commandId true)) st.
Proof. reflexivity. Qed.

Lemma logs_rejected_open sandboxId sessionId commandId e :
  closed st = false ->
  detached (resume (KLogs sandboxId sessionId commandId) (Rejected e)) st
  = add_effect (Enqueue (logs_failure_event e)) st.
Proof. intros H. destruct st; simpl in H; subst. reflexivity. Qed.

Lemma logs_rejected_closed sandboxId sessionId commandId e :
  closed st = true ->
  detached (resume (KLogs sandboxId sessionId commandId) (Rejected e)) st
  = add_fault controller_closed st.
Proof. intros H. destruct st; simpl in H; subst. reflexivity. Qed.

Lemma on_data_open ls chunk :
  closed st = false ->
  detached (on_data ls chunk) st = add_effect (Enqueue (log_event ls chunk (now st))) st.
Proof. intros H. destruct st; simpl in H; subst. reflexivity. Qed.

Lemma on_end_open ls :
  closed st = false ->
  detached (on_end ls) st = add_effect (Enqueue (log_complete_event ls)) st.
Proof. intros H. destruct st; simpl in H; subst. reflexivity. Qed.

Lemma on_error_open ls e message :
  message_of e = Some message ->
  closed st = false ->
  detached (on_error ls e) st = add_effect (Enqueue (log_error_event ls message)) st.
Proof.
  intros Hm H. unfold on_error, read_message, bind, detached. rewrite Hm.
  unfold ret. rewrite sendEvent_open by assumption. reflexivity.
Qed.

Lemma on_error_unreadable ls e :
  message_of e = None ->
  detached (on_error ls e) st = add_fault (cannot_read_message e) st.
Proof.
  intros Hm. unfold on_error, read_message, bind, detached. rewrite Hm.
  reflexivity.
Qed.

Lemma on_data_closed ls chunk :
  closed st = true ->
  detached (on_data ls chunk) st = add_fault controller_closed st.
Proof. intros H. destruct st; simpl in H; subst. reflexivity. Qed.

Lemma on_end_closed ls :
  closed st = true ->
  detached (on_end ls) st = add_fault controller_closed st.
Proof. intros H. destruct st; simpl in H; subst. reflexivity. Qed.

Lemma on_error_closed ls e message :
  message_of e = Some message ->
  closed st = true ->
  detached (on_error ls e) st = add_fault controller_closed st.
Proof.
  intros Hm H. unfold on_error, read_message, bind, detached. rewrite Hm.
  unfold ret. rewrite sendEvent_closed by assumption. reflexivity.
Qed.

Lemma on_abort_open :
  closed st = false ->
  on_abort st
  = (Ret tt,
     set_closed true
       (add_effect Close (add_effect (Enqueue disconnected_event) (cleaned st)))).
Proof.
  intros H. destruct st as [t c l [[]|] iv n p ls f]; simpl in H; subst; reflexivity.
Qed.

Lemma on_abort_closed :
  closed st = true ->
  on_abort st = (Throw controller_closed, cleaned st).
Proof.
  intros H. destruct st as [t c l [[]|] iv n p ls f]; simpl in H; subst; reflexivity.
Qed.

End Equations.

(** ** Decoding text *)

Lemma utf8_decode_ascii s : only (between 0 127) s = true -> utf8_decode s = s.
Proof.
  induction s as [|c s IH]; [reflexivity|].
  cbn [only]. intros H. apply andb_prop in H. destruct H as [Hc Hs].
  cbn [utf8_decode]. rewrite Hc, (IH Hs). reflexivity.
Qed.

(** Decoding never makes a text empty. *)
Lemma utf8_decode_nonempty s : s <> "" -> utf8_decode s <> "".
Proof.
  destruct s as [|b0 t0]; [congruence|]. intros _.
  cbn [utf8_decode]. unfold replacement.
  repeat match goal with
         | |- context [if ?b then _ else _] => destruct b
         | |- context [match ?t with EmptyString => _ | String _ _ => _ end] =>
             is_var t; destruct t
         end; cbn [append]; discriminate.
Qed.

Lemma form_safe_ascii c : form_safe c = true -> between 0 127 c = true.
Proof.
  destruct c as [[] [] [] [] [] [] [] []]; vm_compute; intros H;
    first [reflexivity | discriminate H].
Qed.

Lemma all_safe_ascii s : all_safe s = true -> only (between 0 127) s = true.
Proof.
  induction s as [|c s IH]; [reflexivity|].
  cbn [all_safe only]. intros H. apply andb_prop in H. destruct H as [Hc Hs].
  rewrite (form_safe_ascii c Hc), (IH Hs). reflexivity.
Qed.

Lemma all_safe_well_formed s : all_safe s = true -> well_formed s.
Proof. intros H. apply utf8_decode_ascii, all_safe_ascii, H. Qed.



(** ** What one step writes to the channel *)

Lemma events_app l1 l2 : events (l1 ++ l2) = events l1 ++ events l2.
Proof.
  induction l1 as [|x l1 IH]; simpl; [reflexivity|].
  destruct x; simpl; rewrite IH; reflexivity.
Qed.

Lemma emitted_enqueue e st : emitted (add_effect (Enqueue e) st) = emitted st ++ [e].
Proof. unfold emitted. simpl. apply events_app. Qed.

Lemma emitted_cleaned st : emitted (cleaned st) = emitted st.
Proof.
  unfold cleaned, emitted. destruct (cleanupFunction st); simpl; [|reflexivity].
  rewrite events_app. simpl. apply app_nil_r.
Qed.

Lemma closed_cleaned st : closed (cleaned st) = closed st.
Proof. unfold cleaned. destruct (cleanupFunction st); reflexivity. Qed.

Lemma now_cleaned st : now (cleaned st) = now st.
Proof. unfold cleaned. destruct (cleanupFunction st); reflexivity. Qed.

Lemma emits_nothing st st' :
  emitted st' = emitted st -> closed st' = closed st -> (now st <= now st')%N ->
  emits st st' [].
Proof.
  intros He Hc Hn. split; simpl; try tauto.
  - rewrite app_nil_r. exact He.
  - intros H. rewrite Hc. auto.
  - left. split; [constructor | exact Hc].
Qed.

Lemma emits_one st e :
  closed st = false -> inner e ->
  (forall t, timestamp_of e = Some t -> t = now st) ->
  emits st (add_effect (Enqueue e) st) [e].
Proof.
  intros Hc Hi Ht. split; simpl.
  - apply emitted_enqueue.
  - congruence.
  - left. split; [constructor; [exact Hi | constructor] | reflexivity].
  - destruct (timestamp_of e) as [t'|]; simpl; [|tauto].
    intros t [<-|[]]. apply Ht. reflexivity.
  - lia.
Qed.

Lemma emits_fault st e : emits st (add_fault e st) [].
Proof. apply emits_nothing; simpl; try reflexivity; lia. Qed.

Lemma inner_poll_event k sandboxId t r : inner (poll_event k sandboxId t r).
Proof. destruct k, r; split; discriminate. Qed.

Lemma timestamp_poll_event k sandboxId t r t' :
  timestamp_of (poll_event k sandboxId t r) = Some t' -> t' = t.
Proof. destruct k, r; cbn; congruence. Qed.

Lemma emits_settled k r st :
  exists evs, emits st (detached (resume k r) st) evs.
Proof.
  destruct (closed st) eqn:Hc.
  - destruct k as [k sb|k sb|sb s c].
    + rewrite initial_closed by assumption. eexists. apply emits_fault.
    + rewrite tick_closed by assumption. eexists. apply emits_fault.
    + destruct r.
      * rewrite logs_resolved. eexists. apply emits_nothing; simpl; try reflexivity; lia.
      * rewrite logs_rejected_closed by assumption. eexists. apply emits_fault.
  - destruct k as [k sb|k sb|sb s c].
    + rewrite initial_open by assumption.
      exists [poll_event k sb (now st) r].
      destruct (emits_one st (poll_event k sb (now st) r) Hc
                  (inner_poll_event _ _ _ _) (timestamp_poll_event _ _ _ _)) as [E C S T N].
      split; simpl; try assumption.
      unfold emitted in *. simpl in *. rewrite events_app in *. simpl.
      rewrite app_nil_r. rewrite events_app. reflexivity.
    + rewrite tick_open by assumption. eexists.
      apply emits_one; [assumption | apply inner_poll_event | apply timestamp_poll_event].
    + destruct r.
      * rewrite logs_resolved. eexists. apply emits_nothing; simpl; try reflexivity; lia.
      * rewrite logs_rejected_open by assumption. eexists.
        apply emits_one; [assumption | split; discriminate | cbn; discriminate].
Qed.

Lemma emits_abort st : exists evs, emits st (detached on_abort st) evs.
Proof.
  unfold detached. destruct (closed st) eqn:Hc.
  - rewrite on_abort_closed by assumption. exists [].
    apply emits_nothing; simpl.
    + apply emitted_cleaned.
    + apply closed_cleaned.
    + rewrite now_cleaned. lia.
  - rewrite on_abort_open by assumption. exists [disconnected_event].
    split; simpl.
    + unfold emitted. simpl. rewrite !events_app. simpl. rewrite app_nil_r.
      fold (emitted (cleaned st)). rewrite emitted_cleaned. reflexivity.
    + congruence.
    + right; left. split; reflexivity.
    + tauto.
    + rewrite now_cleaned. lia.
Qed.

Lemma emits_listener (m : Js unit) e st st0 :
  emitted st0 = emitted st -> closed st0 = closed st -> now st0 = now st ->
  inner e -> (forall t, timestamp_of e = Some t -> t = now st) ->
  (closed st0 = false -> detached m st0 = add_effect (Enqueue e) st0) ->
  (closed st0 = true -> detached m st0 = add_fault controller_closed st0) ->
  exists evs, emits st (detached m st0) evs.
Proof.
  intros He Hc Hn Hi Ht Hopen Hclosed.
  destruct (closed st0) eqn:Hc0.
  - rewrite Hclosed by reflexivity. exists [].
    apply emits_nothing; simpl; [assumption | congruence | lia].
  - rewrite Hopen by reflexivity. exists [e].
    assert (Hn' : forall t, timestamp_of e = Some t -> t = now st0)
      by (intros; rewrite Hn; auto).
    destruct (emits_one st0 e Hc0 Hi Hn') as [E C S T N].
    split; simpl.
    + rewrite E, He. reflexivity.
    + congruence.
    + left. split; [constructor; [exact Hi | constructor] | congruence].
    + intros t H. rewrite <- Hn. apply T, H.
    + lia.
Qed.

Lemma step_emits i st : exists evs, emits st (step i st) evs.
Proof.
  destruct i; simpl.
  - exists []. apply emits_nothing; simpl; try reflexivity; try lia.
  - destruct (take_pending id (pending st)) as [[k rest]|].
    + destruct (emits_settled k r (set_pending (next_id st) rest st)) as [evs H].
      exists evs. destruct H as [E C S T N]. split; assumption.
    + exists []. apply emits_nothing; try reflexivity; try lia.
  - destruct (interval st) as [iv|].
    + destruct (iv_due iv <=? now st)%N.
      * exists []. apply emits_nothing; simpl; try reflexivity; try lia.
        unfold emitted. simpl. rewrite events_app. simpl. apply app_nil_r.
      * exists []. apply emits_nothing; try reflexivity; try lia.
    + exists []. apply emits_nothing; try reflexivity; try lia.
  - destruct (logs st) as [ls|]; [destruct (ls_live ls)|].
    + apply emits_listener with (e := log_event ls chunk (now st));
        try reflexivity; try (split; discriminate).
      * cbn. congruence.
      * apply on_data_open.
      * apply on_data_closed.
    + exists []. apply emits_nothing; try reflexivity; try lia.
    + exists []. apply emits_nothing; try reflexivity; try lia.
  - destruct (logs st) as [ls|]; [destruct (ls_live ls)|].
    + apply emits_listener with (e := log_complete_event ls);
        try reflexivity; try (split; discriminate).
      * cbn. discriminate.
      * apply on_end_open.
      * apply on_end_closed.
    + exists []. apply emits_nothing; try reflexivity; try lia.
    + exists []. apply emits_nothing; try reflexivity; try lia.
  - destruct (logs st) as [ls|]; [destruct (ls_live ls)|].
    + destruct (message_of e) as [message|] eqn:Hm.
      * apply emits_listener with (e := log_error_event ls message);
          try reflexivity; try (split; discriminate).
        -- cbn. discriminate.
        -- intros. apply on_error_open; assumption.
        -- intros. apply on_error_closed with (message := message); assumption.
      * rewrite on_error_unreadable by exact Hm. exists [].
        apply emits_nothing; simpl; try reflexivity; try lia.
    + exists []. apply emits_nothing; try reflexivity; try lia.
    + exists []. apply emits_nothing; try reflexivity; try lia.
  - apply emits_abort.
  - exists []. split; simpl.
    + symmetry. apply app_nil_r.
    + auto.
    + right; right. auto.
    + tauto.
    + lia.
Qed.

(** ** The state [GET] leaves *)

Lemma run_app tr1 tr2 st : run (tr1 ++ tr2) st = run tr2 (run tr1 st).
Proof. apply fold_left_app. Qed.

Lemma run_snoc tr i st : run (tr ++ [i]) st = step i (run tr st).
Proof. apply run_app. Qed.

Section Connect.

Variables (t : N) (params : list (string * string)) (sandboxId : string).

Hypothesis Hid : truthy (searchParams_get "sandboxId" params) = Some sandboxId.

Local Abbreviation sessionId := (searchParams_get "sessionId" params).
Local Abbreviation commandId := (searchParams_get "commandId" params).
Local Abbreviation eventType := (eventType_of params).
Local Abbreviation hello := (connected_event sandboxId sessionId commandId eventType).

Lemma connect_start :
  connect t params
  = Some (detached (start sandboxId sessionId commandId eventType) (fresh t)).
Proof. unfold connect, GET. rewrite Hid. reflexivity. Qed.

Lemma connect_poll k :
  poll_kind_of eventType = Some k ->
  connect t params
  = Some (mkState t false [Enqueue hello; HttpGet 0 (poll_url k sandboxId)]
            None None 1 [(0, KInitial k sandboxId)] None []).
Proof.
  intros Hk. rewrite connect_start. f_equal.
  unfold poll_kind_of in Hk.
  destruct (String.eqb_spec eventType "sandbox-status") as [E|_].
  - injection Hk as <-. rewrite E. reflexivity.
  - destruct (String.eqb_spec eventType "sessions") as [E|_]; [|discriminate].
    injection Hk as <-. rewrite E. reflexivity.
Qed.

Lemma connect_logs s c :
  eventType = "logs" -> truthy sessionId = Some s -> truthy commandId = Some c ->
  connect t params
  = Some (mkState t false [Enqueue hello; HttpGet 0 (logs_url sandboxId s c)]
            None None 1 [(0, KLogs sandboxId s c)] None []).
Proof.
  intros E Hs Hc. rewrite connect_start. f_equal.
  rewrite E. unfold detached, start, bind, floating, detached, handleEventStream,
    try_catch. simpl. rewrite Hs, Hc. reflexivity.
Qed.

Lemma connect_logs_missing :
  eventType = "logs" -> truthy sessionId = None \/ truthy commandId = None ->
  connect t params
  = Some (mkState t false [Enqueue hello; Enqueue missing_ids_event]
            None None 0 [] None []).
Proof.
  intros E H. rewrite connect_start. f_equal.
  rewrite E. unfold detached, start, bind, floating, detached, handleEventStream,
    try_catch. simpl.
  destruct H as [H|H]; rewrite H; [|destruct (truthy sessionId)]; reflexivity.
Qed.

(** Whatever the request, the channel opens with [connected], followed
    at most by events without a timestamp. *)
Lemma connect_any :
  exists st0,
    connect t params = Some st0 /\ closed st0 = false /\ now st0 = t /\
    exists evs,
      emitted st0 = hello :: evs /\ Forall inner evs /\ timestamps (hello :: evs) = [].
Proof.
  rewrite connect_start. eexists. split; [reflexivity|].
  unfold detached, start, bind, floating, detached, handleEventStream, try_catch.
  simpl. fold hello.
  destruct (eventType =? "logs").
  - destruct (truthy sessionId); [destruct (truthy commandId)|].
    + repeat split. exists []. repeat split; constructor.
    + repeat split. exists [missing_ids_event].
      repeat split; repeat constructor; discriminate.
    + repeat split. exists [missing_ids_event].
      repeat split; repeat constructor; discriminate.
  - destruct (eventType =? "sandbox-status").
    + repeat split. exists []. repeat split; constructor.
    + destruct (eventType =? "sessions").
      * repeat split. exists []. repeat split; constructor.
      * repeat split. eexists [_]. repeat split; repeat constructor; discriminate.
Qed.

End Connect.

(** ** Order of the events on the channel *)

Lemma framed_step hello i st : framed hello st -> framed hello (step i st).
Proof.
  intros (body & fin & He & Hb & Hf).
  destruct (step_emits i st) as [evs [E C S _ _]].
  destruct (closed st) eqn:Hc.
  - destruct (C eq_refl) as [-> Hc']. rewrite app_nil_r in E.
    exists body, fin. rewrite E. repeat split; try assumption.
    destruct Hf as [Hf|[Hf _]]; [left | right]; auto.
  - assert (fin = []) as -> by (destruct Hf as [Hf|[_ Hf]]; [assumption | discriminate]).
    rewrite app_nil_r in He.
    destruct S as [[Hi Hc']|[[-> Hc']|[-> Hc']]].
    + exists (body ++ evs), []. rewrite E, He, app_nil_r. repeat split.
      * apply Forall_app. split; assumption.
      * left. reflexivity.
    + exists body, [disconnected_event]. rewrite E, He. repeat split; auto.
    + exists body, []. rewrite E, He, !app_nil_r. repeat split; auto.
Qed.

Lemma framed_run hello tr st : framed hello st -> framed hello (run tr st).
Proof.
  revert st. induction tr as [|i tr IH]; intros st H; simpl; [exact H|].
  apply IH, framed_step, H.
Qed.

Lemma count_named_app name l1 l2 :
  count_named name (l1 ++ l2) = count_named name l1 + count_named name l2.
Proof. unfold count_named. rewrite filter_app, length_app. reflexivity. Qed.

Lemma count_inner body :
  Forall inner body ->
  count_named "connected" body = 0 /\ count_named "disconnected" body = 0.
Proof.
  unfold count_named, named. induction 1 as [|e body [H1 H2] _ [IH1 IH2]]; simpl; [auto|].
  destruct (String.eqb_spec (ev_name e) "connected"); [contradiction|].
  destruct (String.eqb_spec (ev_name e) "disconnected"); [contradiction|].
  auto.
Qed.

(** ** Timestamps *)

Lemma timestamps_app l1 l2 : timestamps (l1 ++ l2) = timestamps l1 ++ timestamps l2.
Proof.
  induction l1 as [|e l1 IH]; simpl; [reflexivity|].
  destruct (timestamp_of e); simpl; rewrite IH; reflexivity.
Qed.

Lemma nondecreasing_app l1 l2 t :
  nondecreasing l1 -> Forall (fun x => (x <= t)%N) l1 ->
  Forall (fun x => x = t) l2 ->
  nondecreasing (l1 ++ l2) /\ Forall (fun x => (x <= t)%N) (l1 ++ l2).
Proof.
  intros H1 Hb H2. split.
  - induction l1 as [|a l1 IH]; simpl.
    + clear H1 Hb. induction H2 as [|b l2 -> H2 IH]; simpl; [exact I|].
      split; [|exact IH]. destruct H2 as [|c l2 -> _]; [exact I | lia].
    + destruct H1 as [Ha H1]. inversion Hb as [|? ? Hat Hb']; subst.
      split; [|apply IH; assumption].
      destruct l1 as [|b l1]; simpl; [|exact Ha].
      destruct H2 as [|c l2 -> _]; [exact I | exact Hat].
  - apply Forall_app. split; [exact Hb|].
    eapply Forall_impl; [|exact H2]. simpl. intros x ->. lia.
Qed.

Lemma in_time_step i st : in_time st -> in_time (step i st).
Proof.
  intros [Hs Hb].
  destruct (step_emits i st) as [evs [E _ _ T N]].
  unfold in_time. rewrite E, timestamps_app.
  destruct (nondecreasing_app (timestamps (emitted st)) (timestamps evs) (now st) Hs Hb)
    as [H1 H2].
  - apply Forall_forall. exact T.
  - split; [exact H1|].
    eapply Forall_impl; [|exact H2]. simpl. intros x Hx. lia.
Qed.

Lemma in_time_run tr st : in_time st -> in_time (run tr st).
Proof.
  revert st. induction tr as [|i tr IH]; intros st H; simpl; [exact H|].
  apply IH, in_time_step, H.
Qed.

(** ** Calls in flight *)

Lemma take_pending_Forall (P : nat * Cont -> Prop) id p k rest :
  Forall P p -> take_pending id p = Some (k, rest) -> P (id, k) /\ Forall P rest.
Proof.
  revert k rest. induction p as [|[i k'] p IH]; intros k rest H E; simpl in E.
  - discriminate.
  - inversion H as [|? ? Hh Ht]; subst.
    destruct (Nat.eqb_spec i id) as [->|_].
    + injection E as <- <-. auto.
    + destruct (take_pending id p) as [[k'' rest']|]; [|discriminate].
      injection E as <- <-. destruct (IH _ _ Ht eq_refl) as [H1 H2]. auto.
Qed.

Lemma polling_settled k sandboxId st id r c rest :
  polling k sandboxId st ->
  take_pending id (pending st) = Some (c, rest) ->
  polling k sandboxId (detached (resume c r) (set_pending (next_id st) rest st)).
Proof.
  intros (Hp & Hi & Hl) E.
  destruct (take_pending_Forall _ _ _ _ _ Hp E) as [Hc Hrest]. simpl in Hc.
  set (st1 := set_pending (next_id st) rest st).
  destruct (closed st1) eqn:Hcl; destruct Hc as [-> | ->].
  - rewrite initial_closed by assumption.
    split; [exact Hrest | split; [exact Hi | exact Hl]].
  - rewrite tick_closed by assumption.
    split; [exact Hrest | split; [exact Hi | exact Hl]].
  - rewrite initial_open by assumption.
    split; [exact Hrest | split; [|exact Hl]].
    simpl. intros iv [= <-]. split; reflexivity.
  - rewrite tick_open by assumption.
    split; [exact Hrest | split; [exact Hi | exact Hl]].
Qed.

Lemma polling_step k sandboxId i st :
  polling k sandboxId st -> polling k sandboxId (step i st).
Proof.
  intros H. pose proof H as (Hp & Hi & Hl). destruct i; simpl.
  - exact H.
  - destruct (take_pending id (pending st)) as [[c rest]|] eqn:E; [|exact H].
    eapply polling_settled; eassumption.
  - destruct (interval st) as [iv|] eqn:Ei; [|exact H].
    destruct (iv_due iv <=? now st)%N; [|exact H].
    destruct (Hi iv eq_refl) as [Hk Hs].
    unfold detached, poll, daytonaClient_get. simpl.
    split; [|split; [|exact Hl]].
    + apply Forall_app. split; [exact Hp|]. constructor; [|constructor].
      right. unfold cont_of. simpl. rewrite Hk, Hs. reflexivity.
    + simpl. intros iv' [= <-]. simpl. auto.
  - rewrite Hl. exact H.
  - rewrite Hl. exact H.
  - rewrite Hl. exact H.
  - unfold detached.
    assert (Hclean : polling k sandboxId (cleaned st)).
    { unfold cleaned. destruct (cleanupFunction st); [|exact H].
      split; [exact Hp | split; [|exact Hl]]. simpl. discriminate. }
    destruct (closed st) eqn:Hc.
    + rewrite on_abort_closed by assumption. exact Hclean.
    + rewrite on_abort_open by assumption. exact Hclean.
  - exact H.
Qed.

Lemma polling_run k sandboxId tr st :
  polling k sandboxId st -> polling k sandboxId (run tr st).
Proof.
  revert st. induction tr as [|i tr IH]; intros st H; simpl; [exact H|].
  apply IH, polling_step, H.
Qed.

(** ** A connection with nothing left to run *)

Lemma quiet_step i st :
  quiet st ->
  quiet (step i st) /\
  (is_abort i = false -> emitted (step i st) = emitted st) /\
  (is_teardown i = false -> closed (step i st) = closed st) /\
  (closed st = true -> emitted (step i st) = emitted st /\ closed (step i st) = true) /\
  (i = Abort -> closed st = false ->
   emitted (step i st) = emitted st ++ [disconnected_event] /\ closed (step i st) = true).
Proof.
  intros (Hp & Hi & Hc & Hl).
  assert (Hq : quiet st) by (repeat split; assumption).
  assert (Hls : match logs st with Some ls => ls_live ls = false | None => True end).
  { destruct (logs st) as [ls|] eqn:El; [apply Hl; reflexivity | exact I]. }
  destruct i; simpl; try discriminate.
  - fin.
  - rewrite Hp. simpl. fin.
  - rewrite Hi. fin.
  - destruct (logs st) as [ls|] eqn:El; [rewrite Hls|]; fin.
  - destruct (logs st) as [ls|] eqn:El; [rewrite Hls|]; fin.
  - destruct (logs st) as [ls|] eqn:El; [rewrite Hls|]; fin.
  - assert (Hcl : cleaned st = st) by (unfold cleaned; rewrite Hc; reflexivity).
    unfold detached. destruct (closed st) eqn:Hcs.
    + rewrite on_abort_closed, Hcl by assumption.
      fin.
    + rewrite on_abort_open, Hcl by assumption.
      repeat split; intros; simpl in *; try discriminate; try congruence; auto.
      unfold emitted. simpl. rewrite !events_app. simpl. rewrite app_nil_r. reflexivity.
  - fin.
Qed.

Lemma quiet_undisturbed tr st :
  quiet st -> undisturbed tr ->
  quiet (run tr st) /\ emitted (run tr st) = emitted st /\ closed (run tr st) = closed st.
Proof.
  revert st. induction tr as [|i tr IH]; intros st Hq Hu; simpl; [auto|].
  inversion Hu as [|? ? Hi Hu']; subst.
  destruct (quiet_step i st Hq) as (Hq' & He & Hc & _).
  destruct (IH _ Hq' Hu') as (H1 & H2 & H3).
  split; [exact H1|]. rewrite H2, H3. split.
  - apply He. destruct i; try reflexivity; discriminate.
  - apply Hc, Hi.
Qed.

Lemma quiet_without_abort tr st :
  quiet st -> Forall (fun i => is_abort i = false) tr ->
  emitted (run tr st) = emitted st.
Proof.
  revert st. induction tr as [|i tr IH]; intros st Hq Hu; simpl; [auto|].
  inversion Hu as [|? ? Hi Hu']; subst.
  destruct (quiet_step i st Hq) as (Hq' & He & _).
  rewrite (IH _ Hq' Hu'). apply He, Hi.
Qed.

(** From a quiet state the channel gains at most the farewell, and only
    while closing. *)
Lemma quiet_run tr st :
  quiet st ->
  (closed (run tr st) = closed st /\ emitted (run tr st) = emitted st)
  \/ closed (run tr st) = true
     /\ (emitted (run tr st) = emitted st
         \/ closed st = false /\ emitted (run tr st) = emitted st ++ [disconnected_event]).
Proof.
  revert st. induction tr as [|i tr IH]; intros st Hq; simpl; [auto|].
  destruct (quiet_step i st Hq) as (Hq' & He & Hc & Hcl & Hab).
  assert (Hstay : forall s, quiet s -> closed s = true ->
                            closed (run tr s) = true /\ emitted (run tr s) = emitted s).
  { clear. revert tr. induction tr as [|j tr IH]; intros s Hs Hc; simpl; [auto|].
    destruct (quiet_step j s Hs) as (Hs' & _ & _ & Hcl & _).
    destruct (Hcl Hc) as [E C]. destruct (IH _ Hs' C) as [C' E'].
    split; [exact C' | congruence]. }
  destruct (closed st) eqn:Hcs.
  - destruct (Hcl eq_refl) as [E C]. destruct (Hstay _ Hq' C) as [C' E'].
    left. split; congruence.
  - destruct i;
      try (destruct (IH _ Hq') as [[C E]|[C [E|[C0 E]]]];
           rewrite ?He, ?Hc in * by reflexivity;
           [left; split; congruence
           |right; split; [exact C | left; exact E]
           |right; split; [exact C | right; split; [reflexivity | exact E]]]).
    + destruct (Hab eq_refl eq_refl) as [E C]. destruct (Hstay _ Hq' C) as [C' E'].
      right. split; [exact C' | right; split; [reflexivity | congruence]].
    + assert (C : closed (step Cancel st) = true) by reflexivity.
      destruct (Hstay _ Hq' C) as [C' E'].
      right. split; [exact C' | left]. rewrite E'. apply He. reflexivity.
Qed.

(** ** The front door *)

(** C8. A request without the [sandboxId] parameter (absent or empty) is
    answered at once with status 400: no event stream is opened and no
    event is emitted. *)
Theorem missing_sandboxId_rejected t params :
  truthy (searchParams_get "sandboxId" params) = None ->
  GET t params = PlainResponse 400 "Missing sandboxId parameter" /\
  connect t params = None /\
  response_events (GET t params) = [].
Proof.
  intros H. unfold connect, GET. rewrite H. repeat split.
Qed.

Lemma missing_sandboxId_rejected_witness :
  GET 0 [("eventType", "logs"); ("sessionId", "sess-1")]
  = PlainResponse 400 "Missing sandboxId parameter" /\
  connect 0 [("eventType", "logs"); ("sessionId", "sess-1")] = None /\
  response_events (GET 0 [("eventType", "logs"); ("sessionId", "sess-1")]) = [].
Proof.
  apply (missing_sandboxId_rejected 0 [("eventType", "logs"); ("sessionId", "sess-1")]).
  reflexivity.
Defined.

(** C6. On the channel of every accepted subscription, whatever happens
    afterwards, the [connected] event is the first event and the only one of
    that name, and a [disconnected] event occurs at most once and only as
    the last event. *)
Theorem connected_first_disconnected_last t params sandboxId tr :
  truthy (searchParams_get "sandboxId" params) = Some sandboxId ->
  exists st0 body fin,
    connect t params = Some st0 /\
    emitted (run tr st0)
    = connected_event sandboxId (searchParams_get "sessionId" params)
        (searchParams_get "commandId" params) (eventType_of params)
      :: body ++ fin /\
    Forall inner body /\
    (fin = [] \/ fin = [disconnected_event]) /\
    count_named "connected" (emitted (run tr st0)) = 1 /\
    count_named "disconnected" (emitted (run tr st0)) <= 1.
Proof.
  intros Hid.
  destruct (connect_any t params sandboxId Hid) as (st0 & Hc & Ho & _ & evs & He & Hi & _).
  set (hello := connected_event _ _ _ _) in *.
  assert (Hf : framed hello st0).
  { exists evs, []. rewrite app_nil_r. auto. }
  destruct (framed_run hello tr st0 Hf) as (body & fin & E & Hb & Hfin).
  exists st0, body, fin. rewrite E.
  destruct (count_inner body Hb) as [C1 C2].
  repeat split; try assumption.
  - destruct Hfin as [->|[-> _]]; auto.
  - change (hello :: body ++ fin) with ([hello] ++ body ++ fin).
    rewrite !count_named_app, C1.
    destruct Hfin as [->|[-> _]]; reflexivity.
  - change (hello :: body ++ fin) with ([hello] ++ body ++ fin).
    rewrite !count_named_app, C2.
    destruct Hfin as [->|[-> _]]; simpl; auto.
Qed.

Lemma connected_first_disconnected_last_witness :
  exists st0 body fin,
    connect 0 [("sandboxId", "sbx-1")] = Some st0 /\
    emitted (run [FetchDone 0 (Resolved (VStr "started")); Abort; TimerFire] st0)
    = connected_event "sbx-1" None None "sandbox-status" :: body ++ fin /\
    Forall inner body /\
    (fin = [] \/ fin = [disconnected_event]) /\
    count_named "connected"
      (emitted (run [FetchDone 0 (Resolved (VStr "started")); Abort; TimerFire] st0)) = 1 /\
    count_named "disconnected"
      (emitted (run [FetchDone 0 (Resolved (VStr "started")); Abort; TimerFire] st0)) <= 1.
Proof.
  apply (connected_first_disconnected_last 0 [("sandboxId", "sbx-1")] "sbx-1").
  reflexivity.
Defined.

(** ** The supervisor *)

(** C5. A [logs] subscription that lacks [sessionId] or [commandId] gets,
    after [connected], exactly one [error] event, the one that names the
    missing identifiers; no [log], [log-complete] or [log-error] event is
    ever emitted, and the channel stays open as long as the client stays
    connected. *)
Theorem logs_without_identifiers t params sandboxId tr :
  truthy (searchParams_get "sandboxId" params) = Some sandboxId ->
  eventType_of params = "logs" ->
  truthy (searchParams_get "sessionId" params) = None
  \/ truthy (searchParams_get "commandId" params) = None ->
  exists st0,
    connect t params = Some st0 /\
    closed st0 = false /\
    let hello := connected_event sandboxId (searchParams_get "sessionId" params)
                   (searchParams_get "commandId" params) "logs" in
    let st := run tr st0 in
    (emitted st = [hello; missing_ids_event]
     \/ emitted st = [hello; missing_ids_event; disconnected_event]) /\
    count_named "error" (emitted st) = 1 /\
    count_named "log" (emitted st) = 0 /\
    count_named "log-complete" (emitted st) = 0 /\
    count_named "log-error" (emitted st) = 0 /\
    (undisturbed tr -> closed st = false /\ emitted st = [hello; missing_ids_event]).
Proof.
  intros Hid Het Hmiss.
  rewrite (connect_logs_missing t params sandboxId Hid Het Hmiss).
  rewrite Het. eexists. split; [reflexivity|]. split; [reflexivity|].
  cbv zeta.
  match goal with |- context [run tr ?s] => set (st0 := s) end.
  assert (Hq : quiet st0) by (repeat split; discriminate).
  assert (Hshape : emitted (run tr st0) = emitted st0
                   \/ emitted (run tr st0) = emitted st0 ++ [disconnected_event]).
  { destruct (quiet_run tr st0 Hq) as [[_ E]|[_ [E|[_ E]]]]; auto. }
  split; [exact Hshape|].
  repeat split.
  - destruct Hshape as [-> | ->]; reflexivity.
  - destruct Hshape as [-> | ->]; reflexivity.
  - destruct Hshape as [-> | ->]; reflexivity.
  - destruct Hshape as [-> | ->]; reflexivity.
  - destruct (quiet_undisturbed tr st0 Hq H) as (_ & _ & ->). reflexivity.
  - destruct (quiet_undisturbed tr st0 Hq H) as (_ & -> & _). reflexivity.
Qed.

Lemma logs_without_identifiers_witness :
  exists st0,
    connect 0 [("sandboxId", "sbx-1"); ("eventType", "logs"); ("sessionId", "sess-1")]
    = Some st0 /\
    closed st0 = false /\
    let hello := connected_event "sbx-1" (Some "sess-1") None "logs" in
    let st := run [Elapse 5000; TimerFire; StreamData []] st0 in
    (emitted st = [hello; missing_ids_event]
     \/ emitted st = [hello; missing_ids_event; disconnected_event]) /\
    count_named "error" (emitted st) = 1 /\
    count_named "log" (emitted st) = 0 /\
    count_named "log-complete" (emitted st) = 0 /\
    count_named "log-error" (emitted st) = 0 /\
    (undisturbed [Elapse 5000; TimerFire; StreamData []] ->
     closed st = false /\ emitted st = [hello; missing_ids_event]).
Proof.
  apply (logs_without_identifiers 0
           [("sandboxId", "sbx-1"); ("eventType", "logs"); ("sessionId", "sess-1")]
           "sbx-1" [Elapse 5000; TimerFire; StreamData []]).
  - reflexivity.
  - reflexivity.
  - right. reflexivity.
Defined.

(** ** The poll drivers *)

Lemma steady_settled k sandboxId st id r c rest :
  steady k sandboxId st ->
  take_pending id (pending st) = Some (c, rest) ->
  let st1 := step (FetchDone id r) st in
  steady k sandboxId st1 /\
  emitted st1 = emitted st ++ [poll_event k sandboxId (now st) r] /\
  faults st1 = faults st /\
  exists due, interval st1 = Some (mkInterval k sandboxId due).
Proof.
  intros (Hc & Hl & Hcase) E. simpl. rewrite E.
  set (st' := set_pending (next_id st) rest st).
  assert (Hc' : closed st' = false) by exact Hc.
  destruct Hcase as [[Hi Hp]|(due & Hi & Hp)].
  - rewrite Hp in E. simpl in E. destruct id; simpl in E; [|discriminate].
    injection E as <- <-. rewrite initial_open by assumption.
    repeat split; try assumption.
    + right. exists (now st + pollInterval k)%N. split; [reflexivity | constructor].
    + unfold emitted. simpl. rewrite !events_app. simpl. rewrite app_nil_r. reflexivity.
    + eexists. reflexivity.
  - destruct (take_pending_Forall _ _ _ _ _ Hp E) as [Hk Hrest]. simpl in Hk. subst c.
    rewrite tick_open by assumption.
    repeat split; try assumption.
    + right. exists due. split; assumption.
    + rewrite emitted_enqueue. reflexivity.
    + exists due. exact Hi.
Qed.

Lemma steady_step k sandboxId i st :
  steady k sandboxId st -> is_teardown i = false -> steady k sandboxId (step i st).
Proof.
  intros H Hi. pose proof H as (Hc & Hl & Hcase).
  destruct i; try discriminate.
  - exact H.
  - destruct (take_pending id (pending st)) as [[c rest]|] eqn:E.
    + apply (steady_settled k sandboxId st id r c rest H E).
    + simpl. rewrite E. exact H.
  - simpl. destruct Hcase as [[Hn Hp]|(due & Hn & Hp)]; rewrite Hn; [exact H|].
    simpl. destruct (due <=? now st)%N; [|exact H].
    unfold detached, poll, daytonaClient_get. simpl.
    repeat split; try assumption.
    right. eexists. split; [reflexivity|].
    apply Forall_app. split; [exact Hp | repeat constructor].
  - simpl. rewrite Hl. exact H.
  - simpl. rewrite Hl. exact H.
  - simpl. rewrite Hl. exact H.
Qed.

Lemma steady_run k sandboxId tr st :
  steady k sandboxId st -> undisturbed tr -> steady k sandboxId (run tr st).
Proof.
  revert st. induction tr as [|i tr IH]; intros st H Hu; simpl; [exact H|].
  inversion Hu; subst. apply IH; [apply steady_step|]; assumption.
Qed.

Lemma take_pending_some id p :
  take_pending id p <> None -> exists c rest, take_pending id p = Some (c, rest).
Proof.
  destruct (take_pending id p) as [[c rest]|]; [eauto | congruence].
Qed.

(** The timer, once due, starts the next poll whatever is still in flight. *)
Lemma timer_fires k sandboxId due st :
  interval st = Some (mkInterval k sandboxId due) -> (due <= now st)%N ->
  pending (step TimerFire st) = pending st ++ [(next_id st, KTick k sandboxId)]
  /\ emitted (step TimerFire st) = emitted st.
Proof.
  intros Hi Hd. simpl. rewrite Hi. simpl.
  apply N.leb_le in Hd. rewrite Hd.
  split; [reflexivity|].
  unfold emitted. simpl. rewrite events_app. simpl. apply app_nil_r.
Qed.

Lemma stays_closed tr st : closed st = true -> closed (run tr st) = true.
Proof.
  revert st. induction tr as [|i tr IH]; intros st Hc; simpl; [exact Hc|].
  apply IH. destruct (step_emits i st) as [evs [_ C _ _ _]]. apply (C Hc).
Qed.

Lemma teardown_closes i st : is_teardown i = true -> closed (step i st) = true.
Proof.
  destruct i; try discriminate; intros _; simpl; [|reflexivity].
  unfold detached. destruct (closed st) eqn:Hc.
  - rewrite on_abort_closed by assumption. simpl. rewrite closed_cleaned. exact Hc.
  - rewrite on_abort_open by assumption. reflexivity.
Qed.

(** An open channel has seen neither the abort signal nor a cancel. *)
Lemma open_undisturbed tr st : closed (run tr st) = false -> undisturbed tr.
Proof.
  revert st. induction tr as [|i tr IH]; intros st H; [constructor|].
  simpl in H. constructor; [|apply (IH _ H)].
  destruct (is_teardown i) eqn:E; [|reflexivity].
  rewrite (stays_closed tr _ (teardown_closes i st E)) in H. discriminate.
Qed.

(** C4, as stated, fails.  The stream has no [cancel] handler: when the
    reader has cancelled the response body the timer goes on, and a poll
    that fails then writes no [error] event, since [sendEvent] throws in
    the [catch] of the poll and the rejection goes unhandled. *)
Lemma poll_failure_after_cancel_unreported :
  let st := run [FetchDone 0 (Resolved (VStr "started")); Cancel; Elapse 5000; TimerFire]
              status_session in
  let st1 := step (FetchDone 1 (Rejected (JsError "socket hang up"))) st in
  connect 0 [("sandboxId", "sbx-1")] = Some status_session /\
  take_pending 1 (pending st) = Some (KTick Status "sbx-1", []) /\
  emitted st1 = emitted st /\
  count_named "error" (emitted st1) = 0 /\
  faults st = [] /\
  faults st1 = [controller_closed] /\
  interval st1 = Some (mkInterval Status "sbx-1" 10000).
Proof. repeat split. Qed.

(** C4, amended.  In a poll subscription, as long as the channel is open
    (neither the abort signal nor a cancel so far), when a call in flight
    fails, be it the first poll or one started by the timer, exactly one
    event is written: an [error] event with the text of its kind and the
    message of the failure ([Unknown error] when the failure is not an
    [Error]); nothing is thrown, the timer stays set, and as soon as it is
    due it starts the next poll.  Once the channel is closed a failed poll
    writes nothing: its [sendEvent] throws, and the timer is as it was. *)
Theorem poll_failure_keeps_polling t params sandboxId k tr id e :
  truthy (searchParams_get "sandboxId" params) = Some sandboxId ->
  poll_kind_of (eventType_of params) = Some k ->
  exists st0,
    connect t params = Some st0 /\
    let st := run tr st0 in
    (take_pending id (pending st) <> None ->
     let st1 := step (FetchDone id (Rejected e)) st in
     (closed st = false ->
      emitted st1
      = emitted st
        ++ [mkEvent "error"
              (VObj [("message",
                      VStr match k with
                           | Status => "Failed to get sandbox status"
                           | Sessions => "Failed to get sessions"
                           end);
                     ("error",
                      VStr match e with
                           | JsError message => message
                           | JsOther _ => "Unknown error"
                           end)])] /\
      closed st1 = false /\
      faults st1 = faults st /\
      exists due,
        interval st1 = Some (mkInterval k sandboxId due) /\
        forall d, (due <= now st1 + d)%N ->
          pending (step TimerFire (step (Elapse d) st1))
          = pending st1 ++ [(next_id st1, KTick k sandboxId)]) /\
     (closed st = true ->
      emitted st1 = emitted st /\
      faults st1 = faults st ++ [controller_closed] /\
      interval st1 = interval st)).
Proof.
  intros Hid Hk.
  rewrite (connect_poll t params sandboxId Hid k Hk).
  eexists. split; [reflexivity|]. cbv zeta.
  match goal with |- context [run tr ?s] => set (st0 := s) end.
  intros Hin. destruct (take_pending_some _ _ Hin) as (c & rest & E).
  split; intros Hc.
  - assert (H0 : steady k sandboxId st0).
    { split; [reflexivity|]. split; [reflexivity|]. left. split; reflexivity. }
    pose proof (steady_run k sandboxId tr st0 H0 (open_undisturbed tr st0 Hc)) as Hst.
    destruct (steady_settled k sandboxId _ id (Rejected e) c rest Hst E)
      as (Hst1 & Hem & Hf & due & Hiv).
    split; [rewrite Hem; destruct k, e; reflexivity|].
    split; [apply Hst1|]. split; [exact Hf|].
    exists due. split; [exact Hiv|].
    intros d Hd.
    apply (timer_fires k sandboxId due
             (step (Elapse d) (step (FetchDone id (Rejected e)) (run tr st0)))).
    + exact Hiv.
    + exact Hd.
  - assert (H0 : polling k sandboxId st0).
    { split; [|split; [discriminate | reflexivity]].
      constructor; [left; reflexivity | constructor]. }
    pose proof (polling_run k sandboxId tr st0 H0) as (Hp & _ & _).
    destruct (take_pending_Forall _ _ _ _ _ Hp E) as [Hcont _]. simpl in Hcont.
    simpl. rewrite E.
    set (st' := set_pending (next_id (run tr st0)) rest (run tr st0)).
    assert (Hc' : closed st' = true) by exact Hc.
    destruct Hcont as [-> | ->].
    + rewrite initial_closed by assumption. repeat split.
    + rewrite tick_closed by assumption. repeat split.
Qed.

Lemma poll_failure_keeps_polling_witness :
  (exists st0,
     connect 0 [("sandboxId", "sbx-1"); ("eventType", "sessions")] = Some st0 /\
     let st := run [FetchDone 0 (Resolved (VArr [])); Elapse 10000; TimerFire] st0 in
     let st1 := step (FetchDone 1 (Rejected (JsError "socket hang up"))) st in
     emitted st1
     = emitted st
       ++ [mkEvent "error"
             (VObj [("message", VStr "Failed to get sessions");
                    ("error", VStr "socket hang up")])] /\
     closed st1 = false /\
     faults st1 = faults st /\
     exists due,
       interval st1 = Some (mkInterval Sessions "sbx-1" due) /\
       forall d, (due <= now st1 + d)%N ->
         pending (step TimerFire (step (Elapse d) st1))
         = pending st1 ++ [(next_id st1, KTick Sessions "sbx-1")]) /\
  (exists st0,
     connect 0 [("sandboxId", "sbx-1"); ("eventType", "sessions")] = Some st0 /\
     let st := run [FetchDone 0 (Resolved (VArr [])); Cancel; Elapse 10000; TimerFire] st0 in
     let st1 := step (FetchDone 1 (Rejected (JsError "socket hang up"))) st in
     emitted st1 = emitted st /\
     faults st1 = faults st ++ [controller_closed] /\
     interval st1 = interval st).
Proof.
  assert (S0 : forall st0,
             connect 0 [("sandboxId", "sbx-1"); ("eventType", "sessions")] = Some st0 ->
             st0 = mkState 0 false
                     [Enqueue (connected_event "sbx-1" None None "sessions");
                      HttpGet 0 "/toolbox/sbx-1/toolbox/process/session"]
                     None None 1 [(0, KInitial Sessions "sbx-1")] None []).
  { intros st0 Hc.
    assert (E : Some st0
                = Some (mkState 0 false
                          [Enqueue (connected_event "sbx-1" None None "sessions");
                           HttpGet 0 "/toolbox/sbx-1/toolbox/process/session"]
                          None None 1 [(0, KInitial Sessions "sbx-1")] None []))
      by (rewrite <- Hc; reflexivity).
    injection E as ->. reflexivity. }
  split.
  - destruct (poll_failure_keeps_polling 0
                [("sandboxId", "sbx-1"); ("eventType", "sessions")]
                "sbx-1" Sessions [FetchDone 0 (Resolved (VArr [])); Elapse 10000; TimerFire]
                1 (JsError "socket hang up") eq_refl eq_refl)
      as (st0 & Hc & H).
    exists st0. split; [exact Hc|].
    pose proof (S0 st0 Hc) as ->.
    apply H; [discriminate | reflexivity].
  - destruct (poll_failure_keeps_polling 0
                [("sandboxId", "sbx-1"); ("eventType", "sessions")]
                "sbx-1" Sessions
                [FetchDone 0 (Resolved (VArr [])); Cancel; Elapse 10000; TimerFire]
                1 (JsError "socket hang up") eq_refl eq_refl)
      as (st0 & Hc & H).
    exists st0. split; [exact Hc|].
    pose proof (S0 st0 Hc) as ->.
    apply H; [discriminate | reflexivity].
Defined.

(** C1, as stated, fails.  The timer does not wait for the poll before:
    after [slow_upstream] two polls are in flight together; answered as in
    [late_answers], the poll started last is emitted first, and both events
    carry the same timestamp, so the timestamps are not strictly
    increasing. *)
Lemma poll_ticks_overlap :
  let st0 := mkState 0 false
               [Enqueue (connected_event "sbx-1" None None "sandbox-status");
                HttpGet 0 "/sandbox/sbx-1"]
               None None 1 [(0, KInitial Status "sbx-1")] None [] in
  connect 0 [("sandboxId", "sbx-1")] = Some st0 /\
  pending (run slow_upstream st0)
  = [(1, KTick Status "sbx-1"); (2, KTick Status "sbx-1")] /\
  in_flight (run slow_upstream st0) = 2 /\
  emitted (run (slow_upstream ++ late_answers) st0)
  = [connected_event "sbx-1" None None "sandbox-status";
     poll_success Status "sbx-1" (VStr "started") 0;
     poll_success Status "sbx-1" (VStr "second poll") 10000;
     poll_success Status "sbx-1" (VStr "first poll") 10000] /\
  timestamps (emitted (run (slow_upstream ++ late_answers) st0)) = [0; 10000; 10000]%N /\
  ~ increasing (timestamps (emitted (run (slow_upstream ++ late_answers) st0))).
Proof.
  cbv zeta.
  split; [vm_compute; reflexivity|].
  split; [vm_compute; reflexivity|].
  split; [vm_compute; reflexivity|].
  split; [vm_compute; reflexivity|].
  assert (T : timestamps
                (emitted
                   (run (slow_upstream ++ late_answers)
                      (mkState 0 false
                         [Enqueue (connected_event "sbx-1" None None "sandbox-status");
                          HttpGet 0 "/sandbox/sbx-1"]
                         None None 1 [(0, KInitial Status "sbx-1")] None [])))
              = [0; 10000; 10000]%N) by (vm_compute; reflexivity).
  split; [exact T|].
  rewrite T. simpl. intros (_ & H & _). revert H. apply N.lt_irrefl.
Qed.

(** C1, amended.  In a poll subscription every answer to a call in flight,
    while the channel is open, writes exactly one event at that moment,
    stamped with the clock of that moment where it carries a timestamp; so
    events appear in the order in which the calls complete and their
    timestamps never decrease.  The timer does not wait for calls in flight:
    when it is due it starts one more poll and writes nothing; apart from
    the answers only the abort listener writes. *)
Theorem poll_events_follow_completion t params sandboxId k tr :
  truthy (searchParams_get "sandboxId" params) = Some sandboxId ->
  poll_kind_of (eventType_of params) = Some k ->
  exists st0,
    connect t params = Some st0 /\
    let st := run tr st0 in
    nondecreasing (timestamps (emitted st)) /\
    (forall id r,
        closed st = false -> take_pending id (pending st) <> None ->
        emitted (step (FetchDone id r) st)
        = emitted st ++ [poll_event k sandboxId (now st) r]) /\
    (forall iv,
        interval st = Some iv -> (iv_due iv <= now st)%N ->
        in_flight (step TimerFire st) = S (in_flight st) /\
        emitted (step TimerFire st) = emitted st) /\
    (forall i,
        (forall id r, i <> FetchDone id r) -> i <> Abort ->
        emitted (step i st) = emitted st).
Proof.
  intros Hid Hk.
  rewrite (connect_poll t params sandboxId Hid k Hk).
  eexists. split; [reflexivity|]. cbv zeta.
  match goal with |- context [run tr ?s] => set (st0 := s) end.
  assert (Ht : in_time st0).
  { split; [exact I | constructor]. }
  assert (Hp : polling k sandboxId st0).
  { split; [|split; [discriminate | reflexivity]].
    constructor; [left; reflexivity | constructor]. }
  apply (in_time_run tr) in Ht. apply (polling_run _ _ tr) in Hp.
  destruct Hp as (Hp & Hi & Hl).
  split; [apply Ht|]. split.
  - intros id r Hc Hin.
    destruct (take_pending_some _ _ Hin) as (c & rest & E).
    destruct (take_pending_Forall _ _ _ _ _ Hp E) as [Hc' _].
    simpl. rewrite E.
    set (st' := set_pending (next_id (run tr st0)) rest (run tr st0)).
    assert (Hcl : closed st' = false) by exact Hc.
    simpl in Hc'. destruct Hc' as [-> | ->].
    + rewrite initial_open by assumption.
      unfold emitted. simpl. rewrite !events_app. simpl. rewrite app_nil_r. reflexivity.
    + rewrite tick_open by assumption. rewrite emitted_enqueue. reflexivity.
  - split.
    + intros [k' sb' due] Hiv Hd.
      destruct (timer_fires k' sb' due _ Hiv Hd) as [P E].
      split; [|exact E].
      unfold in_flight. rewrite P, length_app. simpl. lia.
    + intros i Hf Ha. destruct i; simpl; rewrite ?Hl; try reflexivity.
      * destruct (Hf id r eq_refl).
      * destruct (interval (run tr st0)) as [iv|]; [|reflexivity].
        destruct (iv_due iv <=? now (run tr st0))%N; [|reflexivity].
        unfold emitted. simpl. rewrite events_app. simpl. apply app_nil_r.
      * destruct (Ha eq_refl).
Qed.

Lemma poll_events_follow_completion_witness :
  exists st0,
    connect 0 [("sandboxId", "sbx-1")] = Some st0 /\
    let st := run slow_upstream st0 in
    nondecreasing (timestamps (emitted st)) /\
    (forall id r,
        closed st = false -> take_pending id (pending st) <> None ->
        emitted (step (FetchDone id r) st)
        = emitted st ++ [poll_event Status "sbx-1" (now st) r]) /\
    (forall iv,
        interval st = Some iv -> (iv_due iv <= now st)%N ->
        in_flight (step TimerFire st) = S (in_flight st) /\
        emitted (step TimerFire st) = emitted st) /\
    (forall i,
        (forall id r, i <> FetchDone id r) -> i <> Abort ->
        emitted (step i st) = emitted st).
Proof.
  apply (poll_events_follow_completion 0 [("sandboxId", "sbx-1")] "sbx-1" Status
           slow_upstream).
  - reflexivity.
  - reflexivity.
Defined.

(** ** The log driver *)

Lemma deliver_run ls chunks st :
  streaming ls st ->
  streaming ls (run (deliver chunks) st) /\
  emitted (run (deliver chunks) st) = emitted st ++ log_events ls (now st) chunks.
Proof.
  revert st. induction chunks as [|[d chunk] chunks IH]; intros st H; simpl.
  - split; [exact H | symmetry; apply app_nil_r].
  - destruct H as (Hc & Hl & Hv & Hp & Hi & Hf).
    rewrite Hl, Hv.
    set (st1 := set_now (now st + d) st).
    assert (Hc1 : closed st1 = false) by exact Hc.
    rewrite on_data_open by assumption.
    destruct (IH (add_effect (Enqueue (log_event ls chunk (now st1))) st1)) as [H1 H2].
    { repeat split; assumption. }
    split; [exact H1|].
    rewrite H2, emitted_enqueue, <- app_assoc. reflexivity.
Qed.

Lemma count_log_events name ls t chunks :
  count_named name (log_events ls t chunks)
  = if name =? "log" then length chunks else 0.
Proof.
  revert t. induction chunks as [|[d chunk] chunks IH]; intros t.
  - simpl. destruct (name =? "log"); reflexivity.
  - change (log_events ls t ((d, chunk) :: chunks))
      with ([log_event ls chunk (t + d)] ++ log_events ls (t + d) chunks).
    rewrite count_named_app, IH.
    unfold count_named. cbn [filter]. unfold named.
    change (ev_name (log_event ls chunk (t + d))) with "log".
    rewrite (String.eqb_sym "log" name).
    destruct (name =? "log"); reflexivity.
Qed.




(** ** Teardown *)

(** C2, as stated, fails.  When the reader has cancelled the response body
    before the abort listener runs, the channel is closed at emission time
    and the listener's [sendEvent] throws: the listener ends with an
    uncaught [TypeError] and no [disconnected] event is written. *)
Lemma disconnect_on_closed_channel_throws :
  connect 0 [("sandboxId", "sbx-1")] = Some status_session /\
  closed (run [Cancel] status_session) = true /\
  sendEvent "disconnected" (VObj [("message", VStr "Client disconnected")])
    (run [Cancel] status_session)
  = (Throw controller_closed, run [Cancel] status_session) /\
  fst (on_abort (run [Cancel] status_session)) = Throw controller_closed /\
  faults (run [Cancel; Abort] status_session) = [controller_closed] /\
  emitted (run [Cancel; Abort] status_session)
  = [connected_event "sbx-1" None None "sandbox-status"].
Proof. repeat split. Qed.

(** C2, amended.  While the channel is open the abort listener, after the
    guarded cleanup, writes [disconnected] and only then closes the channel,
    without throwing.  When the channel is already closed its [sendEvent]
    throws a [TypeError], nothing is written and the channel stays closed. *)
Theorem disconnect_emits_then_closes st :
  (closed st = false ->
   exists st1,
     on_abort st = (Ret tt, st1) /\
     log st1 = log (cleaned st) ++ [Enqueue disconnected_event; Close] /\
     emitted st1 = emitted st ++ [disconnected_event] /\
     closed st1 = true /\
     faults (detached on_abort st) = faults st) /\
  (closed st = true ->
   exists st1,
     on_abort st = (Throw controller_closed, st1) /\
     emitted st1 = emitted st /\
     closed st1 = true /\
     faults (detached on_abort st) = faults st ++ [controller_closed]).
Proof.
  split; intros Hc.
  - eexists. rewrite on_abort_open by assumption. split; [reflexivity|].
    assert (Hf : faults (cleaned st) = faults st)
      by (unfold cleaned; destruct (cleanupFunction st); reflexivity).
    unfold detached. rewrite on_abort_open by assumption.
    repeat split.
    + simpl. rewrite <- app_assoc. reflexivity.
    + unfold emitted. simpl. rewrite !events_app. simpl. rewrite app_nil_r.
      fold (emitted (cleaned st)). rewrite emitted_cleaned. reflexivity.
    + exact Hf.
  - eexists. rewrite on_abort_closed by assumption. split; [reflexivity|].
    unfold detached. rewrite on_abort_closed by assumption.
    repeat split.
    + apply emitted_cleaned.
    + rewrite closed_cleaned. exact Hc.
    + simpl. unfold cleaned. destruct (cleanupFunction st); reflexivity.
Qed.

Lemma disconnect_emits_then_closes_witness :
  (exists st1,
      on_abort status_session = (Ret tt, st1) /\
      log st1 = log (cleaned status_session) ++ [Enqueue disconnected_event; Close] /\
      emitted st1 = emitted status_session ++ [disconnected_event] /\
      closed st1 = true /\
      faults (detached on_abort status_session) = faults status_session) /\
  (exists st1,
      on_abort (step Cancel status_session) = (Throw controller_closed, st1) /\
      emitted st1 = emitted (step Cancel status_session) /\
      closed st1 = true /\
      faults (detached on_abort (step Cancel status_session))
      = faults (step Cancel status_session) ++ [controller_closed]).
Proof.
  split.
  - apply (proj1 (disconnect_emits_then_closes status_session)). reflexivity.
  - apply (proj2 (disconnect_emits_then_closes (step Cancel status_session))).
    reflexivity.
Defined.

Lemma teardown_cleaned st : teardown st = (Ret tt, cleaned st).
Proof. unfold teardown, cleaned. destruct (cleanupFunction st) as [[]|]; reflexivity. Qed.

Lemma repeated_teardown n st :
  cleanupFunction st = None \/ interval st = None ->
  exists st',
    repeated n teardown st = (Ret tt, st') /\
    interval st' = interval st /\ pending st' = pending st /\ logs st' = logs st /\
    closed st' = closed st /\ cleanupFunction st' = cleanupFunction st /\
    emitted st' = emitted st /\ faults st' = faults st.
Proof.
  revert st. induction n as [|n IH]; intros st H.
  - exists st. repeat split.
  - destruct (IH (cleaned st)) as (st' & R & I & P & L & C & F & E & X).
    { unfold cleaned. destruct (cleanupFunction st) eqn:Ec;
        [right; reflexivity | left; exact Ec]. }
    exists st'. cbn [repeated]. unfold bind. rewrite teardown_cleaned, R.
    rewrite I, P, L, C, F, E, X, emitted_cleaned, closed_cleaned.
    unfold cleaned. destruct (cleanupFunction st) eqn:Ec; repeat split; try assumption.
    simpl. destruct H as [H|H]; congruence.
Qed.

(** C7.  Teardown is the guarded call of the cleanup in the abort
    listener, [if (cleanupFunction) { cleanupFunction(); }].  With no
    cleanup recorded it does nothing.  With one recorded it clears the
    timer; however often it is run again, it finds the timer cleared and
    leaves the timer, the calls in flight, the upstream stream, the channel
    and the recorded cleanup as the first run left them.  No run writes an
    event or throws.  And on the channel of an accepted subscription,
    whatever happens, [disconnected] is written at most once. *)
Theorem teardown_idempotent t params sandboxId tr :
  truthy (searchParams_get "sandboxId" params) = Some sandboxId ->
  (forall st, cleanupFunction st = None -> teardown st = (Ret tt, st)) /\
  (forall st n,
     exists st1 stn,
       teardown st = (Ret tt, st1) /\
       repeated n teardown st1 = (Ret tt, stn) /\
       (cleanupFunction st <> None -> interval st1 = None) /\
       pending st1 = pending st /\ logs st1 = logs st /\ closed st1 = closed st /\
       interval stn = interval st1 /\ pending stn = pending st1 /\
       logs stn = logs st1 /\ closed stn = closed st1 /\
       cleanupFunction stn = cleanupFunction st1 /\
       emitted st1 = emitted st /\ emitted stn = emitted st /\
       faults st1 = faults st /\ faults stn = faults st) /\
  exists st0,
    connect t params = Some st0 /\
    count_named "disconnected" (emitted (run tr st0)) <= 1.
Proof.
  intros Hid. split; [|split].
  - intros st H. rewrite teardown_cleaned. unfold cleaned. rewrite H. reflexivity.
  - intros st n.
    destruct (repeated_teardown n (cleaned st)) as (stn & R & I & P & L & C & F & E & X).
    { unfold cleaned. destruct (cleanupFunction st) eqn:Ec; [right; reflexivity | left; exact Ec]. }
    exists (cleaned st), stn.
    split; [apply teardown_cleaned|]. split; [exact R|].
    rewrite I, P, L, C, F, E, X, emitted_cleaned, closed_cleaned.
    unfold cleaned. destruct (cleanupFunction st) eqn:Ec; repeat split; congruence.
  - destruct (connect_any t params sandboxId Hid) as (st0 & Hc & Ho & _ & evs & He & Hi & _).
    set (hello := connected_event _ _ _ _) in *.
    assert (Hf : framed hello st0).
    { exists evs, []. rewrite app_nil_r. auto. }
    destruct (framed_run hello tr st0 Hf) as (body & fin & E & Hb & Hfin).
    exists st0. split; [exact Hc|]. rewrite E.
    destruct (count_inner body Hb) as [C1 C2].
    change (hello :: body ++ fin) with ([hello] ++ body ++ fin).
    rewrite !count_named_app, C2.
    destruct Hfin as [->|[-> _]]; simpl; auto.
Qed.

Lemma teardown_idempotent_witness :
  teardown status_session = (Ret tt, status_session) /\
  (let st := run [FetchDone 0 (Resolved (VStr "started")); Abort] status_session in
   exists st1 stn,
     teardown st = (Ret tt, st1) /\
     repeated 2 teardown st1 = (Ret tt, stn) /\
     (cleanupFunction st <> None -> interval st1 = None) /\
     pending st1 = pending st /\ logs st1 = logs st /\ closed st1 = closed st /\
     interval stn = interval st1 /\ pending stn = pending st1 /\
     logs stn = logs st1 /\ closed stn = closed st1 /\
     cleanupFunction stn = cleanupFunction st1 /\
     emitted st1 = emitted st /\ emitted stn = emitted st /\
     faults st1 = faults st /\ faults stn = faults st) /\
  exists st0,
    connect 0 [("sandboxId", "sbx-1")] = Some st0 /\
    count_named "disconnected"
      (emitted (run [FetchDone 0 (Resolved (VStr "started")); Abort; TimerFire] st0)) <= 1.
Proof.
  destruct (teardown_idempotent 0 [("sandboxId", "sbx-1")] "sbx-1"
              [FetchDone 0 (Resolved (VStr "started")); Abort; TimerFire] eq_refl)
    as (H1 & H2 & H3).
  split; [apply H1; reflexivity|].
  split; [apply H2 | exact H3].
Defined.

Lemma supervised_step k sandboxId i st :
  supervised k sandboxId st -> supervised k sandboxId (step i st).
Proof.
  intros [Hp Hg]. split; [apply polling_step; exact Hp|].
  pose proof Hp as (Hpend & Hiv & Hl).
  destruct i; simpl; try rewrite Hl; try exact Hg.
  - destruct (take_pending id (pending st)) as [[c rest]|] eqn:E; [|exact Hg].
    destruct (take_pending_Forall _ _ _ _ _ Hpend E) as [Hc _]. simpl in Hc.
    set (st' := set_pending (next_id st) rest st).
    destruct (closed st') eqn:Hcl; destruct Hc as [-> | ->].
    + rewrite initial_closed by assumption. exact Hg.
    + rewrite tick_closed by assumption. exact Hg.
    + rewrite initial_open by assumption. right. reflexivity.
    + rewrite tick_open by assumption. exact Hg.
  - destruct (interval st) as [iv|] eqn:Ei; [|left; exact Ei].
    destruct (iv_due iv <=? now st)%N; [|rewrite Ei; exact Hg].
    destruct Hg as [Hg|Hg]; [discriminate|]. right. exact Hg.
  - unfold detached. destruct (closed st) eqn:Hc.
    + rewrite on_abort_closed by assumption. unfold cleaned.
      destruct (cleanupFunction st); [left; reflexivity|].
      destruct Hg as [Hg|Hg]; [left; exact Hg | discriminate].
    + rewrite on_abort_open by assumption. unfold cleaned.
      destruct (cleanupFunction st); [left; reflexivity|].
      destruct Hg as [Hg|Hg]; [left; exact Hg | discriminate].
Qed.

Lemma supervised_run k sandboxId tr st :
  supervised k sandboxId st -> supervised k sandboxId (run tr st).
Proof.
  revert st. induction tr as [|i tr IH]; intros st H; simpl; [exact H|].
  apply IH, supervised_step, H.
Qed.

Lemma stopped_by_abort k sandboxId st :
  supervised k sandboxId st -> stopped k sandboxId (step Abort st).
Proof.
  intros [Hp Hg]. split; [|split; [|apply polling_step; exact Hp]].
  - simpl. unfold detached. destruct (closed st) eqn:Hc.
    + rewrite on_abort_closed by assumption. simpl. rewrite closed_cleaned. exact Hc.
    + rewrite on_abort_open by assumption. reflexivity.
  - assert (Hi : interval (cleaned st) = None).
    { unfold cleaned. destruct Hg as [Hg|Hg]; rewrite ?Hg; [|reflexivity].
      destruct (cleanupFunction st); [reflexivity | exact Hg]. }
    simpl. unfold detached. destruct (closed st) eqn:Hc.
    + rewrite on_abort_closed by assumption. exact Hi.
    + rewrite on_abort_open by assumption. exact Hi.
Qed.

Lemma stopped_step k sandboxId i st :
  stopped k sandboxId st ->
  stopped k sandboxId (step i st) /\
  next_id (step i st) = next_id st /\
  emitted (step i st) = emitted st.
Proof.
  intros (Hc & Hi & Hp).
  assert (Hpol : polling k sandboxId (step i st)) by (apply polling_step; exact Hp).
  destruct Hp as (Hpend & Hiv & Hl).
  assert (Hsame : closed (step i st) = true /\ interval (step i st) = None /\
                  next_id (step i st) = next_id st /\
                  emitted (step i st) = emitted st).
  { clear Hpol. destruct i; simpl.
    - auto.
    - destruct (take_pending id (pending st)) as [[c rest]|] eqn:E; [|auto].
      destruct (take_pending_Forall _ _ _ _ _ Hpend E) as [Hk _]. simpl in Hk.
      set (st' := set_pending (next_id st) rest st).
      assert (Hc' : closed st' = true) by exact Hc.
      destruct Hk as [-> | ->].
      + rewrite initial_closed by assumption. auto.
      + rewrite tick_closed by assumption. auto.
    - rewrite Hi. auto.
    - rewrite Hl. auto.
    - rewrite Hl. auto.
    - rewrite Hl. auto.
    - unfold detached. rewrite on_abort_closed by assumption.
      change (closed (cleaned st) = true /\ interval (cleaned st) = None /\
              next_id (cleaned st) = next_id st /\ emitted (cleaned st) = emitted st).
      rewrite closed_cleaned, emitted_cleaned.
      unfold cleaned. destruct (cleanupFunction st); auto.
    - auto. }
  destruct Hsame as (H1 & H2 & H3 & H4).
  split; [split; [exact H1 | split; [exact H2 | exact Hpol]] | split; [exact H3 | exact H4]].
Qed.

(** For the two poll drivers the teardown does stop the driver: once the
    abort listener has run, also before the first poll was answered, the
    channel is closed, no timer is set, and whatever happens later no
    further call is started and nothing more is written. *)
Lemma poll_driver_stops_at_teardown t params sandboxId k tr more :
  truthy (searchParams_get "sandboxId" params) = Some sandboxId ->
  poll_kind_of (eventType_of params) = Some k ->
  exists st0,
    connect t params = Some st0 /\
    let st := run (tr ++ [Abort]) st0 in
    closed st = true /\ interval st = None /\
    interval (run more st) = None /\
    next_id (run more st) = next_id st /\
    emitted (run more st) = emitted st.
Proof.
  intros Hid Hk.
  rewrite (connect_poll t params sandboxId Hid k Hk).
  eexists. split; [reflexivity|]. cbv zeta.
  match goal with |- context [run (tr ++ [Abort]) ?s] => set (st0 := s) end.
  assert (H0 : supervised k sandboxId st0).
  { split; [|left; reflexivity].
    split; [|split; [discriminate | reflexivity]].
    constructor; [left; reflexivity | constructor]. }
  rewrite run_snoc.
  pose proof (stopped_by_abort k sandboxId _ (supervised_run k sandboxId tr st0 H0)) as Hs.
  set (st := step Abort (run tr st0)) in *.
  split; [apply Hs|]. split; [apply Hs|].
  clearbody st. clear H0. revert st Hs.
  induction more as [|i more IH]; intros st Hs; simpl.
  - repeat split. apply Hs.
  - destruct (stopped_step k sandboxId i st Hs) as (Hs' & Hn & He).
    destruct (IH _ Hs') as (H1 & H2 & H3).
    repeat split; congruence.
Qed.

(** C3.  The code departs from the claim for the log driver: a [logs]
    subscription records no cleanup, so the abort listener closes the
    channel without stopping anything; the listeners stay on the live
    upstream stream, and the next chunk still runs the [data] listener,
    which throws on the closed channel. *)
Theorem log_driver_survives_teardown :
  connect 0 [("sandboxId", "sbx-1"); ("eventType", "logs");
             ("sessionId", "sess-1"); ("commandId", "cmd-1")] = Some logs_session /\
  let ls := mkLogStream "sbx-1" "sess-1" "cmd-1" true in
  let st := run [FetchDone 0 (Resolved VNull); StreamData [Byte.x68; Byte.x69]; Abort]
              logs_session in
  log st
  = [Enqueue (connected_event "sbx-1" (Some "sess-1") (Some "cmd-1") "logs");
     HttpGet 0 "/toolbox/sbx-1/toolbox/process/session/sess-1/command/cmd-1/logs";
     Enqueue (log_event ls [Byte.x68; Byte.x69] 0);
     Enqueue disconnected_event;
     Close] /\
  closed st = true /\
  cleanupFunction st = None /\
  logs st = Some ls /\
  faults st = [] /\
  faults (step (StreamData [Byte.x6f]) st) = [controller_closed].
Proof. cbv zeta. repeat split. Qed.

(** ** The [getSSEConnectionUrl] tool *)

Lemma form_encode_names :
  form_encode "sandboxId" = "sandboxId" /\
  form_encode "sessionId" = "sessionId" /\
  form_encode "commandId" = "commandId" /\
  form_encode "eventType" = "eventType" /\
  form_encode "logs" = "logs" /\
  form_encode "sandbox-status" = "sandbox-status" /\
  form_encode "sessions" = "sessions".
Proof. vm_compute. repeat split. Qed.

Lemma form_encode_eventType a : form_encode (eventType_arg a) = eventType_arg a.
Proof.
  unfold eventType_arg. destruct (arg_eventType a) as [[]|]; vm_compute; reflexivity.
Qed.

Lemma sse_params_get a :
  searchParams_get "sandboxId" (sse_params a) = Some (arg_sandboxId a) /\
  searchParams_get "sessionId" (sse_params a) = truthy (arg_sessionId a) /\
  searchParams_get "commandId" (sse_params a) = truthy (arg_commandId a) /\
  searchParams_get "eventType" (sse_params a) = Some (eventType_arg a).
Proof.
  unfold sse_params, spread.
  destruct (truthy (arg_sessionId a)), (truthy (arg_commandId a)); repeat split.
Qed.

Lemma sseUrl_shape VERCEL_URL a :
  sseUrl VERCEL_URL a
  = (baseUrl VERCEL_URL ++ "/sse?sandboxId=" ++ form_encode (arg_sandboxId a)
       ++ query_part "sessionId" (arg_sessionId a)
       ++ query_part "commandId" (arg_commandId a)
       ++ "&eventType=" ++ eventType_arg a)%string.
Proof.
  destruct form_encode_names as (E1 & E2 & E3 & E4 & _).
  unfold sseUrl, sse_params, spread, query_part. f_equal.
  destruct (truthy (arg_sessionId a)), (truthy (arg_commandId a));
    cbn [app URLSearchParams_toString];
    rewrite ?E1, ?E2, ?E3, ?E4, form_encode_eventType;
    cbn [append]; repeat f_equal.
Qed.

Lemma sse_query_shape a :
  URLSearchParams_toString (sse_params a)
  = ("sandboxId=" ++ form_encode (arg_sandboxId a)
       ++ query_part "sessionId" (arg_sessionId a)
       ++ query_part "commandId" (arg_commandId a)
       ++ "&eventType=" ++ eventType_arg a)%string.
Proof.
  destruct form_encode_names as (E1 & E2 & E3 & E4 & _).
  unfold sse_params, spread, query_part.
  destruct (truthy (arg_sessionId a)), (truthy (arg_commandId a));
    cbn [app URLSearchParams_toString];
    rewrite ?E1, ?E2, ?E3, ?E4, form_encode_eventType;
    cbn [append]; repeat f_equal.
Qed.

(** ** Upstream calls and timers over a connection *)

Lemma calls_app l1 l2 : calls (l1 ++ l2) = calls l1 ++ calls l2.
Proof.
  induction l1 as [|x l1 IH]; simpl; [reflexivity|].
  destruct x; simpl; rewrite IH; reflexivity.
Qed.

Lemma timers_set_app l1 l2 : timers_set (l1 ++ l2) = timers_set l1 + timers_set l2.
Proof.
  induction l1 as [|x l1 IH]; simpl; [reflexivity|].
  destruct x; simpl; rewrite IH; reflexivity.
Qed.

Lemma log_cleaned st :
  exists effs, log (cleaned st) = log st ++ effs /\ calls effs = [] /\ timers_set effs = 0.
Proof.
  unfold cleaned. destruct (cleanupFunction st); simpl.
  - exists [ClearInterval]. auto.
  - exists []. rewrite app_nil_r. auto.
Qed.

(** What one step adds to the record of effects: a call only when the timer
    runs, a timer only when the first poll of a driver settles on an open
    channel. *)
Lemma step_effects i st :
  exists effs,
    log (step i st) = log st ++ effs /\
    (calls effs = []
     \/ exists iv, i = TimerFire /\ interval st = Some iv /\
                   calls effs = [poll_url (iv_kind iv) (iv_sandboxId iv)]) /\
    (timers_set effs = 0
     \/ exists id r k sandboxId rest,
         i = FetchDone id r /\ closed st = false /\
         take_pending id (pending st) = Some (KInitial k sandboxId, rest) /\
         timers_set effs = 1).
Proof.
  assert (Hnil : exists effs : list Effect,
             log st = log st ++ effs /\
             (calls effs = []
              \/ exists iv, i = TimerFire /\ interval st = Some iv /\
                            calls effs = [poll_url (iv_kind iv) (iv_sandboxId iv)]) /\
             (timers_set effs = 0
              \/ exists id r k sandboxId rest,
                  i = FetchDone id r /\ closed st = false /\
                  take_pending id (pending st) = Some (KInitial k sandboxId, rest) /\
                  timers_set effs = 1)).
  { exists []. rewrite app_nil_r. auto. }
  assert (Hone : forall e, exists effs : list Effect,
             log st ++ [Enqueue e] = log st ++ effs /\
             (calls effs = []
              \/ exists iv, i = TimerFire /\ interval st = Some iv /\
                            calls effs = [poll_url (iv_kind iv) (iv_sandboxId iv)]) /\
             (timers_set effs = 0
              \/ exists id r k sandboxId rest,
                  i = FetchDone id r /\ closed st = false /\
                  take_pending id (pending st) = Some (KInitial k sandboxId, rest) /\
                  timers_set effs = 1)).
  { intros e. exists [Enqueue e]. auto. }
  destruct i; simpl.
  - exact Hnil.
  - destruct (take_pending id (pending st)) as [[c rest]|] eqn:E; [|exact Hnil].
    set (st' := set_pending (next_id st) rest st).
    destruct (closed st) eqn:Hc.
    + assert (Hc' : closed st' = true) by exact Hc.
      destruct c as [k sb|k sb|sb s c]; [| |destruct r].
      * rewrite initial_closed by assumption. exact Hnil.
      * rewrite tick_closed by assumption. exact Hnil.
      * rewrite logs_resolved. exact Hnil.
      * rewrite logs_rejected_closed by assumption. exact Hnil.
    + assert (Hc' : closed st' = false) by exact Hc.
      destruct c as [k sb|k sb|sb s c]; [| |destruct r].
      * rewrite initial_open by assumption. simpl.
        exists [Enqueue (poll_event k sb (now st) r); SetInterval k].
        split; [rewrite <- app_assoc; reflexivity|].
        split; [left; reflexivity|].
        right. exists id, r, k, sb, rest. auto.
      * rewrite tick_open by assumption. apply Hone.
      * rewrite logs_resolved. exact Hnil.
      * rewrite logs_rejected_open by assumption. apply Hone.
  - destruct (interval st) as [iv|] eqn:Ei; [|exact Hnil].
    destruct (iv_due iv <=? now st)%N; [|exact Hnil].
    simpl. eexists. split; [reflexivity|]. split; [|left; reflexivity].
    right. exists iv. auto.
  - destruct (logs st) as [ls|]; [destruct (ls_live ls)|]; try exact Hnil.
    destruct (closed st) eqn:Hc.
    + rewrite on_data_closed by assumption. exact Hnil.
    + rewrite on_data_open by assumption. apply Hone.
  - destruct (logs st) as [ls|]; [destruct (ls_live ls)|]; try exact Hnil.
    match goal with |- context [detached _ ?s] => set (st' := s) end.
    destruct (closed st) eqn:Hc.
    + assert (Hc' : closed st' = true) by exact Hc.
      rewrite on_end_closed by assumption. exact Hnil.
    + assert (Hc' : closed st' = false) by exact Hc.
      rewrite on_end_open by assumption. apply Hone.
  - destruct (logs st) as [ls|]; [destruct (ls_live ls)|]; try exact Hnil.
    match goal with |- context [detached _ ?s] => set (st' := s) end.
    destruct (message_of e) as [message|] eqn:Hm;
      [|rewrite on_error_unreadable by exact Hm; exact Hnil].
    destruct (closed st) eqn:Hc.
    + assert (Hc' : closed st' = true) by exact Hc.
      rewrite on_error_closed with (message := message) by assumption. exact Hnil.
    + assert (Hc' : closed st' = false) by exact Hc.
      rewrite on_error_open with (message := message) by assumption. apply Hone.
  - destruct (log_cleaned st) as (effs & L & C & T).
    unfold detached. destruct (closed st) eqn:Hc.
    + rewrite on_abort_closed by assumption. simpl. exists effs. auto.
    + rewrite on_abort_open by assumption. simpl. rewrite L.
      exists (effs ++ [Enqueue disconnected_event; Close]).
      split; [rewrite <- !app_assoc; reflexivity|].
      rewrite calls_app, timers_set_app, C, T. auto.
  - exact Hnil.
Qed.

Lemma connect_fresh t params sandboxId :
  truthy (searchParams_get "sandboxId" params) = Some sandboxId ->
  exists st0,
    connect t params = Some st0 /\
    closed st0 = false /\ faults st0 = [] /\ interval st0 = None /\
    cleanupFunction st0 = None /\ logs st0 = None /\
    timers_set (log st0) = 0 /\
    (pending st0 = [] \/ exists c, pending st0 = [(0, c)]).
Proof.
  intros Hid. rewrite (connect_start t params sandboxId Hid).
  eexists. split; [reflexivity|].
  unfold detached, start, bind, floating, detached, handleEventStream, try_catch.
  simpl.
  destruct (eventType_of params =? "logs").
  - destruct (truthy (searchParams_get "sessionId" params));
      [destruct (truthy (searchParams_get "commandId" params))|];
      simpl; repeat split; eauto.
  - destruct (eventType_of params =? "sandbox-status");
      [|destruct (eventType_of params =? "sessions")];
      simpl; repeat split; eauto.
Qed.

(** ** Nothing is thrown while the client is connected *)

Lemma step_open_calm i st :
  closed st = false -> is_teardown i = false -> readable i ->
  closed (step i st) = false /\ faults (step i st) = faults st.
Proof.
  intros Hc Hi Hr. destruct i; try discriminate; simpl.
  - auto.
  - destruct (take_pending id (pending st)) as [[c rest]|]; [|auto].
    set (st' := set_pending (next_id st) rest st).
    assert (Hc' : closed st' = false) by exact Hc.
    destruct c as [k sb|k sb|sb s c]; [| |destruct r].
    + rewrite initial_open by assumption. auto.
    + rewrite tick_open by assumption. auto.
    + rewrite logs_resolved. auto.
    + rewrite logs_rejected_open by assumption. auto.
  - destruct (interval st) as [iv|]; [|auto].
    destruct (iv_due iv <=? now st)%N; auto.
  - destruct (logs st) as [ls|]; [destruct (ls_live ls)|]; auto.
    rewrite on_data_open by assumption. auto.
  - destruct (logs st) as [ls|]; [destruct (ls_live ls)|]; auto.
    match goal with |- context [detached _ ?s] => set (st' := s) end.
    assert (Hc' : closed st' = false) by exact Hc.
    rewrite on_end_open by assumption. auto.
  - destruct (logs st) as [ls|]; [destruct (ls_live ls)|]; auto.
    match goal with |- context [detached _ ?s] => set (st' := s) end.
    assert (Hc' : closed st' = false) by exact Hc.
    simpl in Hr. destruct (message_of e) as [message|] eqn:Hm; [|congruence].
    rewrite on_error_open with (message := message) by assumption. auto.
Qed.

Lemma run_open_calm tr st :
  closed st = false -> undisturbed tr -> Forall readable tr ->
  closed (run tr st) = false /\ faults (run tr st) = faults st.
Proof.
  revert st. induction tr as [|i tr IH]; intros st Hc Hu Hr; simpl; [auto|].
  inversion Hu as [|? ? Hi Hu']; subst.
  inversion Hr as [|? ? Hri Hr']; subst.
  destruct (step_open_calm i st Hc Hi Hri) as [Hc' Hf].
  destruct (IH _ Hc' Hu' Hr') as [C F]. split; [exact C | congruence].
Qed.

(** X4.  Whatever the kind of an accepted subscription and whatever the
    upstream does (answers, failures, chunks, stream errors, timer runs),
    as long as the client stays connected and every ['error'] of the
    upstream stream carries a value whose [message] can be read (anything
    but [null] and [undefined]; the stream passes an [Error]), the channel
    stays open and no handler throws: every failure ends as an event.  The
    abort listener, run then, throws nothing either.  The proviso is
    needed: the ['error'] listener reads [error.message] with no test, so
    for [null] or [undefined] it throws a [TypeError] and writes nothing.
    *)
Theorem no_fault_while_connected t params sandboxId tr :
  truthy (searchParams_get "sandboxId" params) = Some sandboxId ->
  undisturbed tr ->
  Forall readable tr ->
  (exists st0,
     connect t params = Some st0 /\
     closed (run tr st0) = false /\
     faults (run tr st0) = [] /\
     faults (run (tr ++ [Abort]) st0) = [] /\
     closed (run (tr ++ [Abort]) st0) = true) /\
  (forall st ls e,
     logs st = Some ls -> ls_live ls = true -> message_of e = None ->
     faults (step (StreamError e) st) = faults st ++ [cannot_read_message e] /\
     emitted (step (StreamError e) st) = emitted st).
Proof.
  intros Hid Hu Hr. split.
  - destruct (connect_fresh t params sandboxId Hid) as (st0 & Hc & Ho & Hf & _).
    exists st0. split; [exact Hc|].
    destruct (run_open_calm tr st0 Ho Hu Hr) as [C F].
    rewrite Hf in F. rewrite run_snoc. simpl. unfold detached.
    rewrite on_abort_open by assumption.
    repeat split; try assumption.
    simpl. unfold cleaned. destruct (cleanupFunction (run tr st0)); exact F.
  - intros st ls e Hl Hlive Hm. simpl. rewrite Hl, Hlive.
    rewrite on_error_unreadable by exact Hm. split; reflexivity.
Qed.

Lemma no_fault_while_connected_witness :
  (exists st0,
     connect 0 [("sandboxId", "sbx-1"); ("sessionId", "s1"); ("commandId", "c1");
                ("eventType", "logs")] = Some st0 /\
     closed (run [FetchDone 0 (Resolved VNull); StreamData [Byte.x68; Byte.x69];
                  StreamError (JsOther (VStr "reset"))] st0) = false /\
     faults (run [FetchDone 0 (Resolved VNull); StreamData [Byte.x68; Byte.x69];
                  StreamError (JsOther (VStr "reset"))] st0) = [] /\
     faults (run ([FetchDone 0 (Resolved VNull); StreamData [Byte.x68; Byte.x69];
                   StreamError (JsOther (VStr "reset"))] ++ [Abort]) st0) = [] /\
     closed (run ([FetchDone 0 (Resolved VNull); StreamData [Byte.x68; Byte.x69];
                   StreamError (JsOther (VStr "reset"))] ++ [Abort]) st0) = true) /\
  (forall st ls e,
     logs st = Some ls -> ls_live ls = true -> message_of e = None ->
     faults (step (StreamError e) st) = faults st ++ [cannot_read_message e] /\
     emitted (step (StreamError e) st) = emitted st).
Proof.
  apply (no_fault_while_connected 0
           [("sandboxId", "sbx-1"); ("sessionId", "s1"); ("commandId", "c1");
            ("eventType", "logs")] "sbx-1").
  - reflexivity.
  - repeat constructor.
  - repeat constructor; discriminate.
Defined.

(** ** One timer per connection *)

Lemma settled_other c r st :
  (forall k sandboxId, c <> KInitial k sandboxId) ->
  timers_set (log (detached (resume c r) st)) = timers_set (log st) /\
  interval (detached (resume c r) st) = interval st /\
  pending (detached (resume c r) st) = pending st.
Proof.
  intros Hc. destruct c as [k sb|k sb|sb s c]; [destruct (Hc k sb eq_refl)| |].
  - destruct (closed st) eqn:E.
    + rewrite tick_closed by assumption. auto.
    + rewrite tick_open by assumption. simpl. rewrite timers_set_app. simpl. auto.
  - destruct r; [rewrite logs_resolved; auto|].
    destruct (closed st) eqn:E.
    + rewrite logs_rejected_closed by assumption. auto.
    + rewrite logs_rejected_open by assumption. simpl. rewrite timers_set_app. simpl. auto.
Qed.

Lemma settled_initial k sandboxId r st :
  pending (detached (resume (KInitial k sandboxId) r) st) = pending st /\
  (timers_set (log (detached (resume (KInitial k sandboxId) r) st)) = timers_set (log st) /\
   interval (detached (resume (KInitial k sandboxId) r) st) = interval st
   \/ timers_set (log (detached (resume (KInitial k sandboxId) r) st))
      = S (timers_set (log st))).
Proof.
  destruct (closed st) eqn:E.
  - rewrite initial_closed by assumption. auto.
  - rewrite initial_open by assumption. simpl. split; [reflexivity|]. right.
    rewrite !timers_set_app. simpl. lia.
Qed.

Lemma timers_set_cleaned st : timers_set (log (cleaned st)) = timers_set (log st).
Proof.
  destruct (log_cleaned st) as (effs & L & _ & T). rewrite L, timers_set_app. lia.
Qed.

Lemma pending_cleaned st : pending (cleaned st) = pending st.
Proof. unfold cleaned. destruct (cleanupFunction st); reflexivity. Qed.

Lemma interval_cleaned st : interval st = None -> interval (cleaned st) = None.
Proof. unfold cleaned. destruct (cleanupFunction st); auto. Qed.

Lemma single_timer_step i st : single_timer st -> single_timer (step i st).
Proof.
  intros H. destruct i; simpl; try exact H.
  - destruct (take_pending id (pending st)) as [[c rest]|] eqn:E; [|exact H].
    set (st' := set_pending (next_id st) rest st).
    destruct H as [(H0 & Hi & Hp)|(H1 & Hp)].
    + assert (Hr : rest = []).
      { destruct Hp as [Hp|(c' & Hp)]; rewrite Hp in E; simpl in E; [discriminate|].
        destruct id; simpl in E; [injection E as _ <-; reflexivity | discriminate]. }
      subst rest.
      destruct c as [k sb|k sb|sb s c].
      * destruct (settled_initial k sb r st') as [P [[T I]|T]].
        -- left. rewrite T, I, P. auto.
        -- right. rewrite T, P. split; [simpl; lia | constructor].
      * destruct (settled_other (KTick k sb) r st') as (T & I & P); [discriminate|].
        left. rewrite T, I, P. auto.
      * destruct (settled_other (KLogs sb s c) r st') as (T & I & P); [discriminate|].
        left. rewrite T, I, P. auto.
    + destruct (take_pending_Forall _ _ _ _ _ Hp E) as [Hc Hrest]. simpl in Hc.
      destruct (settled_other c r st' Hc) as (T & I & P).
      right. rewrite T, P. auto.
  - destruct (interval st) as [iv|] eqn:Ei; [|exact H].
    destruct (iv_due iv <=? now st)%N; [|exact H].
    destruct H as [(H0 & Hi & Hp)|(H1 & Hp)]; [congruence|].
    right. simpl. rewrite timers_set_app. simpl. split; [lia|].
    apply Forall_app. split; [exact Hp|]. constructor; [discriminate | constructor].
  - destruct (logs st) as [ls|]; [destruct (ls_live ls)|]; try exact H.
    destruct (closed st) eqn:Hc.
    + rewrite on_data_closed by assumption. exact H.
    + rewrite on_data_open by assumption.
      unfold single_timer. simpl. rewrite timers_set_app, Nat.add_0_r. exact H.
  - destruct (logs st) as [ls|]; [destruct (ls_live ls)|]; try exact H.
    match goal with |- context [detached _ ?s] => set (st' := s) end.
    destruct (closed st') eqn:Hc.
    + rewrite on_end_closed by assumption. exact H.
    + rewrite on_end_open by assumption.
      unfold single_timer. simpl. rewrite timers_set_app, Nat.add_0_r. exact H.
  - destruct (logs st) as [ls|]; [destruct (ls_live ls)|]; try exact H.
    match goal with |- context [detached _ ?s] => set (st' := s) end.
    destruct (message_of e) as [message|] eqn:Hm;
      [|rewrite on_error_unreadable by exact Hm; exact H].
    destruct (closed st') eqn:Hc.
    + rewrite on_error_closed with (message := message) by assumption. exact H.
    + rewrite on_error_open with (message := message) by assumption.
      unfold single_timer. simpl. rewrite timers_set_app, Nat.add_0_r. exact H.
  - assert (Hclean : single_timer (cleaned st)).
    { unfold single_timer. rewrite timers_set_cleaned, pending_cleaned.
      destruct H as [(H0 & Hi & Hp)|H]; [left | right; exact H].
      split; [exact H0|]. split; [apply interval_cleaned; exact Hi | exact Hp]. }
    unfold detached. destruct (closed st) eqn:Hc.
    + rewrite on_abort_closed by assumption. exact Hclean.
    + rewrite on_abort_open by assumption.
      unfold single_timer in *. simpl. rewrite !timers_set_app. simpl.
      rewrite !Nat.add_0_r. exact Hclean.
Qed.

Lemma single_timer_run tr st : single_timer st -> single_timer (run tr st).
Proof.
  revert st. induction tr as [|i tr IH]; intros st H; simpl; [exact H|].
  apply IH, single_timer_step, H.
Qed.

(** X8.  On the connection of any accepted subscription, whatever
    happens, [setInterval] is called at most once: a connection never has a
    second timer, also not after failures or late answers. *)
Theorem at_most_one_timer t params sandboxId tr :
  truthy (searchParams_get "sandboxId" params) = Some sandboxId ->
  exists st0,
    connect t params = Some st0 /\
    (timers_set (log (run tr st0)) <= 1)%nat.
Proof.
  intros Hid.
  destruct (connect_fresh t params sandboxId Hid)
    as (st0 & Hc & _ & _ & Hi & _ & _ & Ht & Hp).
  exists st0. split; [exact Hc|].
  assert (H0 : single_timer st0) by (left; auto).
  destruct (single_timer_run tr st0 H0) as [(H & _)|(H & _)]; lia.
Qed.

Lemma at_most_one_timer_witness :
  exists st0,
    connect 0 [("sandboxId", "sbx-1")] = Some st0 /\
    (timers_set (log (run (slow_upstream ++ late_answers) st0)) <= 1)%nat.
Proof.
  apply (at_most_one_timer 0 [("sandboxId", "sbx-1")] "sbx-1"). reflexivity.
Defined.

(** ** More on the poll drivers *)

Lemma poll_session_polling t params sandboxId k :
  truthy (searchParams_get "sandboxId" params) = Some sandboxId ->
  poll_kind_of (eventType_of params) = Some k ->
  exists st0,
    connect t params = Some st0 /\ polling k sandboxId st0 /\
    calls (log st0) = [poll_url k sandboxId].
Proof.
  intros Hid Hk. rewrite (connect_poll t params sandboxId Hid k Hk).
  eexists. split; [reflexivity|]. split; [|reflexivity].
  split; [|split; [discriminate | reflexivity]].
  constructor; [left; reflexivity | constructor].
Qed.

(** X10.  A poll subscription only ever calls the endpoint of its own kind
    for its own sandbox: every upstream call of a status subscription goes
    to [/sandbox/<id>], every one of a sessions subscription to
    [/toolbox/<id>/toolbox/process/session]. *)
Theorem poll_calls_own_endpoint t params sandboxId k tr :
  truthy (searchParams_get "sandboxId" params) = Some sandboxId ->
  poll_kind_of (eventType_of params) = Some k ->
  exists st0,
    connect t params = Some st0 /\
    Forall (fun url => url = poll_url k sandboxId) (calls (log (run tr st0))).
Proof.
  intros Hid Hk.
  destruct (poll_session_polling t params sandboxId k Hid Hk) as (st0 & Hc & Hp & Hcalls).
  exists st0. split; [exact Hc|].
  assert (H0 : Forall (fun url => url = poll_url k sandboxId) (calls (log st0))).
  { rewrite Hcalls. repeat constructor. }
  clear Hc Hcalls. revert st0 Hp H0.
  induction tr as [|i tr IH]; intros st Hp H0; simpl; [exact H0|].
  apply IH; [apply polling_step; exact Hp|].
  destruct (step_effects i st) as (effs & L & C & _).
  rewrite L, calls_app. apply Forall_app. split; [exact H0|].
  destruct C as [-> | (iv & _ & Hi & ->)]; [constructor|].
  destruct Hp as (_ & Hiv & _). destruct (Hiv iv Hi) as [-> ->].
  repeat constructor.
Qed.

Lemma poll_calls_own_endpoint_witness :
  exists st0,
    connect 0 [("sandboxId", "sbx-1"); ("eventType", "sessions")] = Some st0 /\
    Forall (fun url => url = poll_url Sessions "sbx-1")
      (calls (log (run [FetchDone 0 (Resolved VNull); Elapse 10000; TimerFire] st0))).
Proof.
  apply (poll_calls_own_endpoint 0 [("sandboxId", "sbx-1"); ("eventType", "sessions")]
           "sbx-1" Sessions).
  - reflexivity.
  - reflexivity.
Defined.

Lemma poll_driver_stops_at_teardown_witness :
  exists st0,
    connect 0 [("sandboxId", "sbx-1")] = Some st0 /\
    let st := run ([] ++ [Abort]) st0 in
    closed st = true /\ interval st = None /\
    interval (run [FetchDone 0 (Resolved (VStr "started")); Elapse 5000; TimerFire] st)
    = None /\
    next_id (run [FetchDone 0 (Resolved (VStr "started")); Elapse 5000; TimerFire] st)
    = next_id st /\
    emitted (run [FetchDone 0 (Resolved (VStr "started")); Elapse 5000; TimerFire] st)
    = emitted st.
Proof.
  apply (poll_driver_stops_at_teardown 0 [("sandboxId", "sbx-1")] "sbx-1" Status []
           [FetchDone 0 (Resolved (VStr "started")); Elapse 5000; TimerFire]).
  - reflexivity.
  - reflexivity.
Defined.

(** X6.  In a poll subscription an answer that arrives once the channel is
    closed (after the abort listener ran, or after the reader cancelled)
    writes nothing and changes neither timer nor cleanup: both [sendEvent]
    calls of the poll throw, and the answer ends as one unhandled
    [TypeError]. *)
Theorem late_answer_is_unhandled t params sandboxId k tr id r :
  truthy (searchParams_get "sandboxId" params) = Some sandboxId ->
  poll_kind_of (eventType_of params) = Some k ->
  exists st0,
    connect t params = Some st0 /\
    let st := run tr st0 in
    (closed st = true -> take_pending id (pending st) <> None ->
     let st1 := step (FetchDone id r) st in
     log st1 = log st /\
     faults st1 = faults st ++ [controller_closed] /\
     interval st1 = interval st /\
     cleanupFunction st1 = cleanupFunction st /\
     closed st1 = true).
Proof.
  intros Hid Hk.
  destruct (poll_session_polling t params sandboxId k Hid Hk) as (st0 & Hc & Hp & _).
  exists st0. split; [exact Hc|]. cbv zeta.
  apply (polling_run _ _ tr) in Hp. destruct Hp as (Hp & _).
  intros Hcl Hin. destruct (take_pending_some _ _ Hin) as (c & rest & E).
  destruct (take_pending_Forall _ _ _ _ _ Hp E) as [Hk' _]. simpl in Hk'.
  simpl. rewrite E.
  set (st' := set_pending (next_id (run tr st0)) rest (run tr st0)).
  assert (Hcl' : closed st' = true) by exact Hcl.
  destruct Hk' as [-> | ->].
  - rewrite initial_closed by assumption. repeat split. exact Hcl.
  - rewrite tick_closed by assumption. repeat split. exact Hcl.
Qed.

Lemma late_answer_is_unhandled_witness :
  exists st0,
    connect 0 [("sandboxId", "sbx-1")] = Some st0 /\
    let st := run [Abort] st0 in
    let st1 := step (FetchDone 0 (Resolved (VStr "started"))) st in
    log st1 = log st /\
    faults st1 = faults st ++ [controller_closed] /\
    interval st1 = interval st /\
    cleanupFunction st1 = cleanupFunction st /\
    closed st1 = true.
Proof.
  destruct (late_answer_is_unhandled 0 [("sandboxId", "sbx-1")] "sbx-1" Status [Abort]
              0 (Resolved (VStr "started")))
    as (st0 & Hc & H).
  - reflexivity.
  - reflexivity.
  - exists st0. split; [exact Hc|].
    assert (E : Some st0 = Some status_session) by (rewrite <- Hc; reflexivity).
    injection E as ->. apply H; [reflexivity | discriminate].
Defined.

Lemma timer_kept k sandboxId i st :
  polling k sandboxId st -> is_abort i = false ->
  (exists due, interval st = Some (mkInterval k sandboxId due)) ->
  exists due, interval (step i st) = Some (mkInterval k sandboxId due).
Proof.
  intros (Hp & _ & Hl) Hi (due & Hiv).
  destruct i; try discriminate; simpl; rewrite ?Hl, ?Hiv; eauto.
  - destruct (take_pending id (pending st)) as [[c rest]|] eqn:E; [|eauto].
    destruct (take_pending_Forall _ _ _ _ _ Hp E) as [Hk _]. simpl in Hk.
    set (st' := set_pending (next_id st) rest st).
    destruct (closed st') eqn:Hc; destruct Hk as [-> | ->].
    + rewrite initial_closed by assumption. eauto.
    + rewrite tick_closed by assumption. eauto.
    + rewrite initial_open by assumption. simpl. unfold timer. eauto.
    + rewrite tick_open by assumption. eauto.
  - simpl. destruct (due <=? now st)%N; simpl; eauto.
Qed.

Lemma closed_run tr st :
  closed st = true -> closed (run tr st) = true /\ emitted (run tr st) = emitted st.
Proof.
  revert st. induction tr as [|i tr IH]; intros st Hc; simpl; [auto|].
  destruct (step_emits i st) as [evs [E C _ _ _]].
  destruct (C Hc) as [-> Hc']. rewrite app_nil_r in E.
  destruct (IH _ Hc') as [H1 H2]. split; [exact H1 | congruence].
Qed.

(** X7.  The stream has no [cancel] handler, so when the reader cancels the
    response body and no abort signal follows, a poll driver is not stopped:
    nothing can be written any more, but the timer stays set and, whenever
    it is due, still starts an upstream call. *)
Theorem cancel_does_not_stop_polling t params sandboxId k tr1 tr2 :
  truthy (searchParams_get "sandboxId" params) = Some sandboxId ->
  poll_kind_of (eventType_of params) = Some k ->
  unaborted tr2 ->
  exists st0,
    connect t params = Some st0 /\
    (interval (run tr1 st0) <> None ->
     let st := run (tr1 ++ Cancel :: tr2) st0 in
     closed st = true /\
     emitted st = emitted (run tr1 st0) /\
     exists due,
       interval st = Some (mkInterval k sandboxId due) /\
       forall d, (due <= now st + d)%N ->
         pending (step TimerFire (step (Elapse d) st))
         = pending st ++ [(next_id st, KTick k sandboxId)]).
Proof.
  intros Hid Hk Hu.
  destruct (poll_session_polling t params sandboxId k Hid Hk) as (st0 & Hc & Hp & _).
  exists st0. split; [exact Hc|]. intros Hi. cbv zeta.
  rewrite run_app. simpl.
  apply (polling_run _ _ tr1) in Hp.
  set (st1 := run tr1 st0) in *.
  assert (Hiv : exists due, interval (set_closed true st1) = Some (mkInterval k sandboxId due)).
  { destruct (interval st1) as [[k' sb' due]|] eqn:E; [|congruence].
    destruct Hp as (_ & Hp & _). destruct (Hp _ E) as [Hk' Hs]. simpl in Hk', Hs.
    subst. exists due. exact E. }
  assert (Hp' : polling k sandboxId (set_closed true st1)) by exact Hp.
  destruct (closed_run tr2 (set_closed true st1) eq_refl) as [C E].
  split; [exact C|]. split; [exact E|].
  assert (Hfin : exists due,
             interval (run tr2 (set_closed true st1)) = Some (mkInterval k sandboxId due)).
  { clear C E Hi. generalize dependent (set_closed true st1). clear st1 Hp.
    induction Hu as [|i tr2 Hi Hu IH]; intros st Hiv Hp; simpl; [exact Hiv|].
    apply IH; [apply timer_kept; assumption | apply polling_step; exact Hp]. }
  destruct Hfin as (due & Hdue). exists due. split; [exact Hdue|].
  intros d Hd.
  apply (timer_fires k sandboxId due (step (Elapse d) (run tr2 (set_closed true st1))));
    assumption.
Qed.

Lemma cancel_does_not_stop_polling_witness :
  exists st0,
    connect 0 [("sandboxId", "sbx-1")] = Some st0 /\
    let st := run ([FetchDone 0 (Resolved (VStr "started"))]
                     ++ Cancel :: [Elapse 5000; TimerFire; FetchDone 1 (Resolved VNull)])
                st0 in
    closed st = true /\
    emitted st = emitted (run [FetchDone 0 (Resolved (VStr "started"))] st0) /\
    exists due,
      interval st = Some (mkInterval Status "sbx-1" due) /\
      forall d, (due <= now st + d)%N ->
        pending (step TimerFire (step (Elapse d) st))
        = pending st ++ [(next_id st, KTick Status "sbx-1")].
Proof.
  destruct (cancel_does_not_stop_polling 0 [("sandboxId", "sbx-1")] "sbx-1" Status
              [FetchDone 0 (Resolved (VStr "started"))]
              [Elapse 5000; TimerFire; FetchDone 1 (Resolved VNull)])
    as (st0 & Hc & H).
  - reflexivity.
  - reflexivity.
  - repeat constructor.
  - exists st0. split; [exact Hc|].
    assert (E : Some st0 = Some status_session) by (rewrite <- Hc; reflexivity).
    injection E as ->. apply H. discriminate.
Defined.

(** ** More on the supervisor and the log driver *)

Lemma quiet_run_quiet tr st : quiet st -> quiet (run tr st).
Proof.
  revert st. induction tr as [|i tr IH]; intros st H; simpl; [exact H|].
  apply IH. apply (quiet_step i st H).
Qed.

Lemma quiet_effects tr st :
  quiet st ->
  calls (log (run tr st)) = calls (log st) /\
  timers_set (log (run tr st)) = timers_set (log st).
Proof.
  revert st. induction tr as [|i tr IH]; intros st H; simpl; [auto|].
  destruct (IH (step i st)) as [C T]; [apply (quiet_step i st H)|].
  rewrite C, T.
  destruct (step_effects i st) as (effs & L & Hc & Ht).
  destruct H as (Hp & Hi & _).
  rewrite L, calls_app, timers_set_app.
  destruct Hc as [-> | (iv & _ & E & _)]; [|congruence].
  destruct Ht as [-> | (id & r & k & sb & rest & _ & _ & E & _)].
  - rewrite app_nil_r, Nat.add_0_r. auto.
  - rewrite Hp in E. discriminate.
Qed.

Lemma connect_unknown t params sandboxId :
  truthy (searchParams_get "sandboxId" params) = Some sandboxId ->
  eventType_of params <> "logs" ->
  poll_kind_of (eventType_of params) = None ->
  connect t params
  = Some (mkState t false
            [Enqueue (connected_event sandboxId (searchParams_get "sessionId" params)
                        (searchParams_get "commandId" params) (eventType_of params));
             Enqueue (unknown_type_event (eventType_of params))]
            None None 0 [] None []).
Proof.
  intros Hid Hl Hk. rewrite (connect_start t params sandboxId Hid). f_equal.
  unfold poll_kind_of in Hk.
  unfold detached, start, bind, floating, detached, handleEventStream, try_catch.
  simpl.
  destruct (String.eqb_spec (eventType_of params) "logs") as [E|_]; [contradiction|].
  destruct (eventType_of params =? "sandbox-status"); [discriminate|].
  destruct (eventType_of params =? "sessions"); [discriminate|].
  reflexivity.
Qed.

(** X1.  A subscription whose [eventType] is none of [logs],
    [sandbox-status] and [sessions] is accepted: after [connected] it gets
    one [error] event that names the unknown type.  No upstream call is
    ever made and no timer set; the channel stays open while the client is
    connected, and nothing but the final [disconnected] is written later. *)
Theorem unknown_event_type t params sandboxId tr :
  truthy (searchParams_get "sandboxId" params) = Some sandboxId ->
  eventType_of params <> "logs" ->
  poll_kind_of (eventType_of params) = None ->
  exists st0,
    connect t params = Some st0 /\
    let hello := connected_event sandboxId (searchParams_get "sessionId" params)
                   (searchParams_get "commandId" params) (eventType_of params) in
    let oops := unknown_type_event (eventType_of params) in
    let st := run tr st0 in
    emitted st0 = [hello; oops] /\
    (emitted st = [hello; oops] \/ emitted st = [hello; oops; disconnected_event]) /\
    calls (log st) = [] /\
    timers_set (log st) = 0 /\
    (undisturbed tr -> closed st = false /\ emitted st = [hello; oops]).
Proof.
  intros Hid Hl Hk.
  rewrite (connect_unknown t params sandboxId Hid Hl Hk).
  eexists. split; [reflexivity|]. cbv zeta.
  match goal with |- context [run tr ?s] => set (st0 := s) end.
  assert (Hq : quiet st0) by (repeat split; discriminate).
  split; [reflexivity|].
  split.
  { destruct (quiet_run tr st0 Hq) as [[_ E]|[_ [E|[_ E]]]]; rewrite E; auto. }
  destruct (quiet_effects tr st0 Hq) as [C T].
  split; [rewrite C; reflexivity|]. split; [rewrite T; reflexivity|].
  intros Hu. destruct (quiet_undisturbed tr st0 Hq Hu) as (_ & E & C').
  rewrite E, C'. auto.
Qed.

Lemma unknown_event_type_witness :
  exists st0,
    connect 0 [("sandboxId", "sbx-1"); ("eventType", "metrics")] = Some st0 /\
    let hello := connected_event "sbx-1" None None "metrics" in
    let oops := unknown_type_event "metrics" in
    let st := run [Elapse 5000; TimerFire; Abort] st0 in
    emitted st0 = [hello; oops] /\
    (emitted st = [hello; oops] \/ emitted st = [hello; oops; disconnected_event]) /\
    calls (log st) = [] /\
    timers_set (log st) = 0 /\
    (undisturbed [Elapse 5000; TimerFire; Abort] ->
     closed st = false /\ emitted st = [hello; oops]).
Proof.
  apply (unknown_event_type 0 [("sandboxId", "sbx-1"); ("eventType", "metrics")] "sbx-1"
           [Elapse 5000; TimerFire; Abort]).
  - reflexivity.
  - discriminate.
  - reflexivity.
Defined.

Lemma log_only_step i st : log_only st -> log_only (step i st).
Proof.
  intros (Hi & Hc & Hp).
  assert (H : log_only st) by (split; [|split]; assumption).
  destruct i; simpl; try exact H.
  - destruct (take_pending id (pending st)) as [[c rest]|] eqn:E; [|exact H].
    destruct (take_pending_Forall _ _ _ _ _ Hp E) as [(sb & s & cm & Hk) Hrest].
    simpl in Hk. subst c.
    set (st' := set_pending (next_id st) rest st).
    assert (H' : log_only st') by (split; [|split]; assumption).
    destruct r; [rewrite logs_resolved; exact H'|].
    destruct (closed st') eqn:Hcl.
    + rewrite logs_rejected_closed by assumption. exact H'.
    + rewrite logs_rejected_open by assumption. exact H'.
  - rewrite Hi. exact H.
  - destruct (logs st) as [ls|]; [destruct (ls_live ls)|]; try exact H.
    destruct (closed st) eqn:Hcl.
    + rewrite on_data_closed by assumption. exact H.
    + rewrite on_data_open by assumption. exact H.
  - destruct (logs st) as [ls|]; [destruct (ls_live ls)|]; try exact H.
    match goal with |- context [detached _ ?s] => set (st' := s) end.
    destruct (closed st') eqn:Hcl.
    + rewrite on_end_closed by assumption. exact H.
    + rewrite on_end_open by assumption. exact H.
  - destruct (logs st) as [ls|]; [destruct (ls_live ls)|]; try exact H.
    match goal with |- context [detached _ ?s] => set (st' := s) end.
    destruct (message_of e) as [message|] eqn:Hm;
      [|rewrite on_error_unreadable by exact Hm; exact H].
    destruct (closed st') eqn:Hcl.
    + rewrite on_error_closed with (message := message) by assumption. exact H.
    + rewrite on_error_open with (message := message) by assumption. exact H.
  - assert (Hcl : cleaned st = st) by (unfold cleaned; rewrite Hc; reflexivity).
    unfold detached. destruct (closed st) eqn:E.
    + rewrite on_abort_closed, Hcl by assumption. exact H.
    + rewrite on_abort_open, Hcl by assumption. exact H.
Qed.

(** X9.  A log subscription makes exactly one upstream call in its whole
    life, the one that opens the log stream: whatever happens (the call
    fails, the stream errors or ends, the client leaves) the driver never
    calls again, never sets a timer and never records a cleanup. *)
Theorem log_driver_calls_once t params sandboxId sessionId commandId tr :
  truthy (searchParams_get "sandboxId" params) = Some sandboxId ->
  eventType_of params = "logs" ->
  truthy (searchParams_get "sessionId" params) = Some sessionId ->
  truthy (searchParams_get "commandId" params) = Some commandId ->
  exists st0,
    connect t params = Some st0 /\
    calls (log (run tr st0)) = [logs_url sandboxId sessionId commandId] /\
    timers_set (log (run tr st0)) = 0 /\
    interval (run tr st0) = None /\
    cleanupFunction (run tr st0) = None.
Proof.
  intros Hid Het Hs Hc.
  rewrite (connect_logs t params sandboxId Hid sessionId commandId Het Hs Hc).
  eexists. split; [reflexivity|].
  match goal with |- context [run tr ?s] => set (st0 := s) end.
  assert (H0 : log_only st0).
  { split; [reflexivity|]. split; [reflexivity|].
    constructor; [simpl; eauto | constructor]. }
  assert (C0 : calls (log st0) = [logs_url sandboxId sessionId commandId]) by reflexivity.
  assert (T0 : timers_set (log st0) = 0) by reflexivity.
  clearbody st0. revert st0 H0 C0 T0.
  induction tr as [|i tr IH]; intros st H C T; simpl.
  - destruct H as (Hi & Hcf & _). auto.
  - apply IH; [apply log_only_step; exact H| |].
    + destruct (step_effects i st) as (effs & L & Hcalls & _).
      rewrite L, calls_app, C.
      destruct Hcalls as [-> | (iv & _ & E & _)]; [reflexivity|].
      destruct H as (Hi & _). congruence.
    + destruct (step_effects i st) as (effs & L & _ & Ht).
      rewrite L, timers_set_app, T.
      destruct Ht as [-> | (id & r & k & sb & rest & _ & _ & E & _)]; [reflexivity|].
      destruct H as (_ & _ & Hp).
      destruct (take_pending_Forall _ _ _ _ _ Hp E) as [(? & ? & ? & Hk) _].
      discriminate Hk.
Qed.

Lemma log_driver_calls_once_witness :
  exists st0,
    connect 0 [("sandboxId", "sbx-1"); ("eventType", "logs");
               ("sessionId", "sess-1"); ("commandId", "cmd-1")] = Some st0 /\
    calls (log (run [FetchDone 0 (Rejected (JsError "ECONNRESET")); Elapse 60000;
                     TimerFire; Abort] st0))
    = [logs_url "sbx-1" "sess-1" "cmd-1"] /\
    timers_set (log (run [FetchDone 0 (Rejected (JsError "ECONNRESET")); Elapse 60000;
                          TimerFire; Abort] st0)) = 0 /\
    interval (run [FetchDone 0 (Rejected (JsError "ECONNRESET")); Elapse 60000;
                   TimerFire; Abort] st0) = None /\
    cleanupFunction (run [FetchDone 0 (Rejected (JsError "ECONNRESET")); Elapse 60000;
                          TimerFire; Abort] st0) = None.
Proof.
  apply (log_driver_calls_once 0
           [("sandboxId", "sbx-1"); ("eventType", "logs");
            ("sessionId", "sess-1"); ("commandId", "cmd-1")]
           "sbx-1" "sess-1" "cmd-1"); reflexivity.
Defined.

(** X2.  When the upstream log stream breaks after some chunks, the channel
    carries [connected], the [log] events of the chunks that arrived, and
    one [log-error] event whose [error] is what [error.message] reads from
    the value of the failure: the message of an [Error].  No
    [log-complete] is written, nothing is thrown, the channel stays open;
    the driver does not reopen the stream, and until the client leaves
    nothing more is written.  (For [null] and [undefined] the read throws:
    that case has no [message].) *)
Theorem log_stream_error_reported t params sandboxId sessionId commandId
    data d0 chunks d1 e message :
  truthy (searchParams_get "sandboxId" params) = Some sandboxId ->
  eventType_of params = "logs" ->
  truthy (searchParams_get "sessionId" params) = Some sessionId ->
  truthy (searchParams_get "commandId" params) = Some commandId ->
  message_of e = Some message ->
  exists st0,
    connect t params = Some st0 /\
    let ls := mkLogStream sandboxId sessionId commandId true in
    let st := run (Elapse d0 :: FetchDone 0 (Resolved data)
                     :: deliver chunks ++ [Elapse d1; StreamError e]) st0 in
    emitted st
    = connected_event sandboxId (searchParams_get "sessionId" params)
        (searchParams_get "commandId" params) "logs"
      :: log_events ls (t + d0) chunks
      ++ [mkEvent "log-error"
            (VObj [("sandboxId", VStr sandboxId);
                   ("sessionId", VStr sessionId);
                   ("commandId", VStr commandId);
                   ("error", message)])] /\
    (forall m, e = JsError m -> message = VStr m) /\
    count_named "log-complete" (emitted st) = 0 /\
    closed st = false /\
    faults st = [] /\
    forall more, unaborted more -> emitted (run more st) = emitted st.
Proof.
  intros Hid Het Hs Hc Hmsg.
  rewrite (connect_logs t params sandboxId Hid sessionId commandId Het Hs Hc).
  rewrite Het. eexists. split; [reflexivity|]. cbv zeta.
  set (ls := mkLogStream sandboxId sessionId commandId true).
  set (hello := connected_event _ _ _ _).
  change (mkEvent "log-error" _) with (log_error_event ls message).
  change (Elapse d0 :: FetchDone 0 (Resolved data)
            :: deliver chunks ++ [Elapse d1; StreamError e])
    with ([Elapse d0; FetchDone 0 (Resolved data)]
            ++ deliver chunks ++ [Elapse d1; StreamError e]).
  rewrite !run_app.
  match goal with
  | |- context [run [Elapse d0; _] ?s] =>
      set (st1 := run [Elapse d0; FetchDone 0 (Resolved data)] s)
  end.
  assert (H1 : streaming ls st1) by (repeat split).
  assert (E1 : emitted st1 = [hello]) by reflexivity.
  assert (N1 : now st1 = (t + d0)%N) by reflexivity.
  assert (F1 : faults st1 = []) by reflexivity.
  destruct (deliver_run ls chunks st1 H1) as [H2 E2].
  assert (F2 : faults (run (deliver chunks) st1) = []).
  { destruct H1 as (C1 & _).
    destruct (run_open_calm (deliver chunks) st1 C1) as [_ F].
    - clear. induction chunks as [|[d c] chunks IH]; simpl; repeat constructor. exact IH.
    - clear. induction chunks as [|[d c] chunks IH]; simpl; repeat constructor. exact IH.
    - congruence. }
  set (st2 := run (deliver chunks) st1) in *.
  destruct H2 as (C2 & L2 & V2 & P2 & I2 & K2).
  set (st3 := run [Elapse d1; StreamError e] st2).
  assert (S3 : st3
               = add_effect (Enqueue (log_error_event ls message))
                   (set_logs (Some (mkLogStream sandboxId sessionId commandId false))
                      (set_now (now st2 + d1) st2))).
  { unfold st3. simpl. rewrite L2, V2.
    match goal with |- context [detached _ ?s] => set (s' := s) end.
    assert (Cs : closed s' = false) by exact C2.
    rewrite on_error_open with (message := message) by assumption. reflexivity. }
  assert (E3 : emitted st3
               = hello :: log_events ls (t + d0) chunks ++ [log_error_event ls message]).
  { rewrite S3, emitted_enqueue.
    change (emitted (set_logs _ (set_now _ st2))) with (emitted st2).
    rewrite E2, E1, N1. reflexivity. }
  assert (Q3 : quiet st3).
  { rewrite S3. repeat split; try assumption. simpl. intros ls' [= <-]. reflexivity. }
  split; [exact E3|].
  split; [intros m ->; simpl in Hmsg; congruence|].
  split.
  { rewrite E3.
    change (hello :: log_events ls (t + d0) chunks ++ [log_error_event ls message])
      with ([hello] ++ log_events ls (t + d0) chunks ++ [log_error_event ls message]).
    rewrite !count_named_app, count_log_events. reflexivity. }
  split; [rewrite S3; exact C2|].
  split; [rewrite S3; exact F2|].
  intros more Hm. apply (quiet_without_abort more st3 Q3 Hm).
Qed.

Lemma log_stream_error_reported_witness :
  exists st0,
    connect 0 [("sandboxId", "sbx-1"); ("eventType", "logs");
               ("sessionId", "sess-1"); ("commandId", "cmd-1")] = Some st0 /\
    let ls := mkLogStream "sbx-1" "sess-1" "cmd-1" true in
    let chunks := [(10, [Byte.x68; Byte.x69])]%N in
    let st := run (Elapse 40 :: FetchDone 0 (Resolved VNull)
                     :: deliver chunks ++ [Elapse 5; StreamError (JsError "aborted")])
                st0 in
    emitted st
    = connected_event "sbx-1" (Some "sess-1") (Some "cmd-1") "logs"
      :: log_events ls (0 + 40) chunks
      ++ [mkEvent "log-error"
            (VObj [("sandboxId", VStr "sbx-1");
                   ("sessionId", VStr "sess-1");
                   ("commandId", VStr "cmd-1");
                   ("error", VStr "aborted")])] /\
    (forall m, JsError "aborted" = JsError m -> VStr "aborted" = VStr m) /\
    count_named "log-complete" (emitted st) = 0 /\
    closed st = false /\
    faults st = [] /\
    forall more, unaborted more -> emitted (run more st) = emitted st.
Proof.
  apply (log_stream_error_reported 0
           [("sandboxId", "sbx-1"); ("eventType", "logs");
            ("sessionId", "sess-1"); ("commandId", "cmd-1")]
           "sbx-1" "sess-1" "cmd-1" VNull 40 [(10, [Byte.x68; Byte.x69])]%N 5
           (JsError "aborted") (VStr "aborted"));
    reflexivity.
Defined.

(** X3.  When the call that opens the log stream fails, the channel gets,
    after [connected], exactly one [error] event, the one of
    [streamCommandLogs] with the message of the failure: it is not a
    [log-error], the [catch] of [handleEventStream] adds no second event,
    no listener is attached, nothing is thrown and the channel stays open.
    Chunks that the upstream might still send are not relayed. *)
Theorem log_stream_open_failure t params sandboxId sessionId commandId d0 e :
  truthy (searchParams_get "sandboxId" params) = Some sandboxId ->
  eventType_of params = "logs" ->
  truthy (searchParams_get "sessionId" params) = Some sessionId ->
  truthy (searchParams_get "commandId" params) = Some commandId ->
  exists st0,
    connect t params = Some st0 /\
    let st := run [Elapse d0; FetchDone 0 (Rejected e)] st0 in
    emitted st
    = [connected_event sandboxId (searchParams_get "sessionId" params)
         (searchParams_get "commandId" params) "logs";
       logs_failure_event e] /\
    field "error" match ev_data (logs_failure_event e) with VObj fs => fs | _ => [] end
    = Some (VStr (error_message e)) /\
    logs st = None /\
    closed st = false /\
    faults st = [] /\
    forall more, unaborted more -> emitted (run more st) = emitted st.
Proof.
  intros Hid Het Hs Hc.
  rewrite (connect_logs t params sandboxId Hid sessionId commandId Het Hs Hc).
  rewrite Het. eexists. split; [reflexivity|]. cbv zeta.
  match goal with |- context [run [Elapse d0; _] ?s] => set (st := run _ s) end.
  assert (Q : quiet st) by (repeat split; discriminate).
  repeat split.
  intros more Hm. apply (quiet_without_abort more st Q Hm).
Qed.

Lemma log_stream_open_failure_witness :
  exists st0,
    connect 0 [("sandboxId", "sbx-1"); ("eventType", "logs");
               ("sessionId", "sess-1"); ("commandId", "cmd-1")] = Some st0 /\
    let st := run [Elapse 30; FetchDone 0 (Rejected (JsError "Request failed with status code 401"))]
                st0 in
    emitted st
    = [connected_event "sbx-1" (Some "sess-1") (Some "cmd-1") "logs";
       logs_failure_event (JsError "Request failed with status code 401")] /\
    field "error"
      match ev_data (logs_failure_event (JsError "Request failed with status code 401")) with
      | VObj fs => fs
      | _ => []
      end
    = Some (VStr (error_message (JsError "Request failed with status code 401"))) /\
    logs st = None /\
    closed st = false /\
    faults st = [] /\
    forall more, unaborted more -> emitted (run more st) = emitted st.
Proof.
  apply (log_stream_open_failure 0
           [("sandboxId", "sbx-1"); ("eventType", "logs");
            ("sessionId", "sess-1"); ("commandId", "cmd-1")]
           "sbx-1" "sess-1" "cmd-1" 30 (JsError "Request failed with status code 401"));
    reflexivity.
Defined.

(** ** Writing and reading the query string *)

Lemma percent_decode_plain c t :
  (c =? "%")%char = false -> percent_decode (String c t) = String c (percent_decode t).
Proof.
  intros H. destruct t as [|a [|b rest]]; simpl; try reflexivity.
  rewrite H. reflexivity.
Qed.

Lemma percent_decode_escape a b t :
  is_hex a = true -> is_hex b = true ->
  percent_decode (String "%" (String a (String b t)))
  = String (ascii_of_N (16 * hex_value a + hex_value b)) (percent_decode t).
Proof.
  intros Ha Hb. cbn [percent_decode]. rewrite Ha, Hb. reflexivity.
Qed.

Lemma hex_digits c :
  let hi := hex_digit (N_of_ascii c / 16) in
  let lo := hex_digit (N_of_ascii c mod 16) in
  is_hex hi = true /\ is_hex lo = true /\
  ascii_of_N (16 * hex_value hi + hex_value lo) = c /\
  (hi =? "+")%char = false /\ (lo =? "+")%char = false /\
  (hi =? "&")%char = false /\ (lo =? "&")%char = false /\
  (hi =? "=")%char = false /\ (lo =? "=")%char = false.
Proof.
  destruct c as [[] [] [] [] [] [] [] []]; vm_compute; repeat split.
Qed.

Lemma form_safe_plain c :
  form_safe c = true ->
  (c =? "%")%char = false /\ (c =? "+")%char = false /\
  (c =? "&")%char = false /\ (c =? "=")%char = false.
Proof.
  destruct c as [[] [] [] [] [] [] [] []]; vm_compute; intros H;
    repeat split; discriminate H.
Qed.

(** Reading back what the serializer wrote for one byte gives the byte. *)
Lemma form_unescape_byte c s :
  form_unescape (form_encode_byte c ++ s)%string = String c (form_unescape s).
Proof.
  unfold form_unescape, form_encode_byte.
  destruct (form_safe c) eqn:Hs.
  - destruct (form_safe_plain c Hs) as (Hp & Hplus & _).
    simpl. rewrite Hplus. apply percent_decode_plain, Hp.
  - destruct (N.eqb_spec (N_of_ascii c) 32) as [E|_].
    + assert (c = " "%char) as ->.
      { rewrite <- (ascii_N_embedding c), E. reflexivity. }
      simpl. apply percent_decode_plain. reflexivity.
    + destruct (hex_digits c) as (H1 & H2 & H3 & H4 & H5 & _).
      cbn [append plus_to_space]. rewrite H4, H5.
      change ("%" =? "+")%char with false. cbn iota.
      rewrite percent_decode_escape by assumption. rewrite H3. reflexivity.
Qed.

Lemma form_unescape_encode s : form_unescape (form_encode s) = s.
Proof.
  induction s as [|c s IH]; [reflexivity|].
  simpl. rewrite form_unescape_byte, IH. reflexivity.
Qed.

(** Reading back what the serializer wrote decodes the bytes it was
    given. *)
Lemma form_decode_encode s : form_decode (form_encode s) = utf8_decode s.
Proof. unfold form_decode. rewrite form_unescape_encode. reflexivity. Qed.

Lemma lacks_app sep a b : lacks sep (a ++ b)%string = lacks sep a && lacks sep b.
Proof.
  induction a as [|c a IH]; simpl; [reflexivity|].
  rewrite IH. apply andb_assoc.
Qed.

(** What the serializer writes for a name or a value has no [&] and no
    [=]. *)
Lemma form_encode_lacks s :
  lacks "&" (form_encode s) = true /\ lacks "=" (form_encode s) = true.
Proof.
  induction s as [|c s [IH1 IH2]]; [auto|].
  simpl. rewrite !lacks_app, IH1, IH2, !andb_true_r.
  unfold form_encode_byte.
  destruct (form_safe c) eqn:Hs.
  - destruct (form_safe_plain c Hs) as (_ & _ & Ha & He).
    simpl. rewrite Ha, He. auto.
  - destruct (N_of_ascii c =? 32)%N; [auto|].
    destruct (hex_digits c) as (_ & _ & _ & _ & _ & A1 & A2 & E1 & E2).
    simpl. rewrite A1, A2, E1, E2. auto.
Qed.

Lemma split_on_lacks sep a :
  lacks sep a = true -> split_on sep a = [a].
Proof.
  induction a as [|c a IH]; simpl; [reflexivity|].
  intros H. apply andb_prop in H. destruct H as [Hc Ha].
  apply negb_true_iff in Hc. rewrite Hc, (IH Ha). reflexivity.
Qed.

Lemma split_on_app sep a b :
  lacks sep a = true ->
  split_on sep (a ++ String sep b)%string = a :: split_on sep b.
Proof.
  induction a as [|c a IH]; simpl.
  - rewrite Ascii.eqb_refl. reflexivity.
  - intros H. apply andb_prop in H. destruct H as [Hc Ha].
    apply negb_true_iff in Hc. rewrite Hc, (IH Ha). reflexivity.
Qed.

Lemma cut_app sep a b :
  lacks sep a = true -> cut sep (a ++ String sep b)%string = (a, Some b).
Proof.
  induction a as [|c a IH]; simpl.
  - rewrite Ascii.eqb_refl. reflexivity.
  - intros H. apply andb_prop in H. destruct H as [Hc Ha].
    apply negb_true_iff in Hc. rewrite Hc, (IH Ha). reflexivity.
Qed.

Lemma parse_piece_pair k v :
  parse_piece (form_encode k ++ String "=" (form_encode v))%string
  = [(utf8_decode k, utf8_decode v)].
Proof.
  destruct (form_encode_lacks k) as [_ Hk].
  assert (H : forall piece,
             piece <> EmptyString ->
             parse_piece piece
             = let (name, value) := cut "=" piece in
               [(form_decode name,
                 form_decode match value with Some x => x | None => EmptyString end)]).
  { intros [|c t] Hp; [congruence | reflexivity]. }
  rewrite H.
  - rewrite (cut_app "=" _ _ Hk), !form_decode_encode. reflexivity.
  - destruct (form_encode k); discriminate.
Qed.

Lemma parse_written_decoded params :
  URLSearchParams_parse (URLSearchParams_toString params) = decoded params.
Proof.
  unfold URLSearchParams_parse.
  induction params as [|[k v] rest IH]; [reflexivity|].
  destruct (form_encode_lacks k) as [Ak _].
  destruct (form_encode_lacks v) as [Av _].
  assert (A : lacks "&" (form_encode k ++ String "=" (form_encode v))%string = true).
  { rewrite lacks_app. simpl. rewrite Ak, Av. reflexivity. }
  destruct rest as [|p rest].
  - cbn [URLSearchParams_toString]. cbn [append].
    rewrite (split_on_lacks "&" _ A). cbn [flat_map]. rewrite app_nil_r.
    apply parse_piece_pair.
  - change (URLSearchParams_toString ((k, v) :: p :: rest))
      with (form_encode k ++ "=" ++ form_encode v ++ "&"
              ++ URLSearchParams_toString (p :: rest))%string.
    cbn [append].
    replace (form_encode k ++ String "=" (form_encode v
               ++ String "&" (URLSearchParams_toString (p :: rest))))%string
      with ((form_encode k ++ String "=" (form_encode v))
              ++ String "&" (URLSearchParams_toString (p :: rest)))%string.
    + rewrite (split_on_app "&" _ _ A). cbn [flat_map].
      rewrite parse_piece_pair, IH. reflexivity.
    + clear. induction (form_encode k) as [|c s IHs]; simpl; [reflexivity|].
      f_equal. exact IHs.
Qed.

Lemma decoded_well_formed params : well_formed_params params -> decoded params = params.
Proof.
  induction 1 as [|[k v] rest [Hk Hv] _ IH]; [reflexivity|].
  simpl in *. unfold well_formed in *. rewrite Hk, Hv, IH. reflexivity.
Qed.

Lemma parse_written params :
  well_formed_params params ->
  URLSearchParams_parse (URLSearchParams_toString params) = params.
Proof.
  intros H. rewrite parse_written_decoded. apply decoded_well_formed, H.
Qed.

Lemma only_app p a b : only p (a ++ b)%string = only p a && only p b.
Proof.
  induction a as [|c a IH]; simpl; [reflexivity|].
  rewrite IH. apply andb_assoc.
Qed.

Lemma hex_digit_safe c :
  form_safe (hex_digit (N_of_ascii c / 16)) = true /\
  form_safe (hex_digit (N_of_ascii c mod 16)) = true.
Proof.
  destruct c as [[] [] [] [] [] [] [] []]; vm_compute; split; reflexivity.
Qed.

Lemma form_encode_chars s : only query_char (form_encode s) = true.
Proof.
  induction s as [|c s IH]; [reflexivity|].
  simpl. rewrite only_app, IH, andb_true_r.
  unfold form_encode_byte. destruct (form_safe c) eqn:Hs.
  - simpl. unfold query_char. rewrite Hs. reflexivity.
  - destruct (N_of_ascii c =? 32)%N; [reflexivity|].
    destruct (hex_digit_safe c) as [H1 H2].
    cbn [only]. unfold query_char at 2 3. rewrite H1, H2. reflexivity.
Qed.

(** What the serializer writes consists of letters, digits and
    [*-._+%&=]. *)
Lemma written_chars params : only query_char (URLSearchParams_toString params) = true.
Proof.
  induction params as [|[k v] rest IH]; [reflexivity|].
  assert (H : only query_char (form_encode k ++ "=" ++ form_encode v)%string = true).
  { rewrite !only_app, !form_encode_chars. reflexivity. }
  destruct rest as [|p rest]; [exact H|].
  change (URLSearchParams_toString ((k, v) :: p :: rest))
    with (form_encode k ++ "=" ++ form_encode v ++ "&"
            ++ URLSearchParams_toString (p :: rest))%string.
  rewrite !only_app in *. rewrite IH, !form_encode_chars. reflexivity.
Qed.

(** X11.  The route reads back what the tools' serializer wrote: for
    names and values that are well-formed text (UTF-8, which excludes a
    lone surrogate), parsing the written query gives back the parameters,
    in order and byte for byte, whatever reserved characters they contain;
    and what is written consists only of letters, digits and [*-._+%&=],
    so it can stand in a URL as it is. *)
Theorem query_round_trip params :
  well_formed_params params ->
  URLSearchParams_parse (URLSearchParams_toString params) = params /\
  only query_char (URLSearchParams_toString params) = true.
Proof.
  intros Hw. split; [apply parse_written, Hw | apply written_chars].
Qed.

Lemma query_round_trip_witness :
  URLSearchParams_parse
    (URLSearchParams_toString [("a&b", "1 + 1 = 2"); (e_acute, "100%")])
  = [("a&b", "1 + 1 = 2"); (e_acute, "100%")] /\
  only query_char
    (URLSearchParams_toString [("a&b", "1 + 1 = 2"); (e_acute, "100%")]) = true.
Proof.
  apply (query_round_trip [("a&b", "1 + 1 = 2"); (e_acute, "100%")]).
  repeat constructor.
Defined.

(** ** From the tools to the route *)

Lemma eventType_arg_kind a :
  eventType_of (sse_params a) = eventType_arg a /\
  eventType_arg a <> EmptyString /\
  match arg_eventType a with
  | Some Logs => eventType_arg a = "logs"
  | Some SessionsList => poll_kind_of (eventType_arg a) = Some Sessions
  | _ => poll_kind_of (eventType_arg a) = Some Status
  end.
Proof.
  destruct (sse_params_get a) as (_ & _ & _ & G).
  unfold eventType_of. rewrite G. unfold eventType_arg.
  destruct (arg_eventType a) as [[]|]; repeat split; discriminate.
Qed.

Lemma truthy_idem o : truthy (truthy o) = truthy o.
Proof. destruct o as [[|c s]|]; reflexivity. Qed.

Lemma truthy_some o v : truthy o = Some v -> o = Some v /\ v <> EmptyString.
Proof.
  destruct o as [[|c s]|]; simpl; intros H; try discriminate.
  injection H as <-. split; [reflexivity | discriminate].
Qed.

Lemma sse_params_well_formed a :
  well_formed_args a -> well_formed_params (sse_params a).
Proof.
  intros (Hsb & Hs & Hc). unfold well_formed_params, sse_params, spread.
  assert (He : well_formed (eventType_arg a)).
  { unfold eventType_arg. destruct (arg_eventType a) as [[]|]; reflexivity. }
  constructor; [split; [reflexivity | exact Hsb]|].
  apply Forall_app. split; [|apply Forall_app; split].
  - destruct (truthy (arg_sessionId a)) as [s|] eqn:E; constructor; [|constructor].
    split; [reflexivity|]. apply Hs. apply (truthy_some _ _ E).
  - destruct (truthy (arg_commandId a)) as [c|] eqn:E; constructor; [|constructor].
    split; [reflexivity|]. apply Hc. apply (truthy_some _ _ E).
  - constructor; [|constructor]. split; [reflexivity | exact He].
Qed.

(** X12.  A client that opens the URL returned by [getSSEConnectionUrl],
    for a non-empty [sandboxId] and identifiers that are well-formed text
    (no lone surrogate), gets the subscription the arguments describe: the
    query of the URL reads back as the parameters the tool wrote, the
    channel opens with [connected] echoing them, and the upstream call that
    is started is the one of the chosen kind for the given identifiers
    (none when a [logs] identifier is missing). *)
Theorem tool_url_opens_asked_subscription VERCEL_URL a t :
  arg_sandboxId a <> EmptyString ->
  well_formed_args a ->
  exists query st0,
    sseUrl VERCEL_URL a = (baseUrl VERCEL_URL ++ "/sse?" ++ query)%string /\
    URLSearchParams_parse query = sse_params a /\
    connect t (URLSearchParams_parse query) = Some st0 /\
    closed st0 = false /\
    hd_error (emitted st0)
    = Some (connected_event (arg_sandboxId a) (truthy (arg_sessionId a))
              (truthy (arg_commandId a)) (eventType_arg a)) /\
    calls (log st0) = asked_call a.
Proof.
  intros Hsb Hwf.
  exists (URLSearchParams_toString (sse_params a)).
  rewrite (parse_written _ (sse_params_well_formed a Hwf)).
  destruct (sse_params_get a) as (G1 & G2 & G3 & G4).
  destruct (eventType_arg_kind a) as (Het & _ & Hkind).
  assert (Hid : truthy (searchParams_get "sandboxId" (sse_params a))
                = Some (arg_sandboxId a)).
  { rewrite G1. destruct (arg_sandboxId a); [contradiction | reflexivity]. }
  assert (Hs2 : truthy (searchParams_get "sessionId" (sse_params a))
                = truthy (arg_sessionId a)) by (rewrite G2; apply truthy_idem).
  assert (Hc2 : truthy (searchParams_get "commandId" (sse_params a))
                = truthy (arg_commandId a)) by (rewrite G3; apply truthy_idem).
  unfold asked_call.
  destruct (arg_eventType a) as [[]|] eqn:Ety.
  - destruct (truthy (arg_sessionId a)) as [s|] eqn:Es;
      [destruct (truthy (arg_commandId a)) as [c|] eqn:Ec|].
    + rewrite (connect_logs t (sse_params a) (arg_sandboxId a) Hid s c).
      * rewrite G2, G3, Het, ?Es, ?Ec. eexists. repeat split.
      * congruence.
      * exact Hs2.
      * exact Hc2.
    + rewrite (connect_logs_missing t (sse_params a) (arg_sandboxId a) Hid).
      * rewrite G2, G3, Het, ?Es, ?Ec. eexists. repeat split.
      * congruence.
      * right. exact Hc2.
    + rewrite (connect_logs_missing t (sse_params a) (arg_sandboxId a) Hid).
      * rewrite G2, G3, Het, ?Es. eexists. repeat split.
      * congruence.
      * left. exact Hs2.
  - rewrite (connect_poll t (sse_params a) (arg_sandboxId a) Hid Status)
      by (rewrite Het; exact Hkind).
    rewrite G2, G3, Het. eexists. repeat split.
  - rewrite (connect_poll t (sse_params a) (arg_sandboxId a) Hid Sessions)
      by (rewrite Het; exact Hkind).
    rewrite G2, G3, Het. eexists. repeat split.
  - rewrite (connect_poll t (sse_params a) (arg_sandboxId a) Hid Status)
      by (rewrite Het; exact Hkind).
    rewrite G2, G3, Het. eexists. repeat split.
Qed.

Lemma tool_url_opens_asked_subscription_witness :
  exists query st0,
    sseUrl (Some "relay.example") (mkToolArgs "sbx 1" (Some "a&b") (Some e_acute) (Some Logs))
    = (baseUrl (Some "relay.example") ++ "/sse?" ++ query)%string /\
    URLSearchParams_parse query
    = sse_params (mkToolArgs "sbx 1" (Some "a&b") (Some e_acute) (Some Logs)) /\
    connect 0 (URLSearchParams_parse query) = Some st0 /\
    closed st0 = false /\
    hd_error (emitted st0)
    = Some (connected_event "sbx 1" (Some "a&b") (Some e_acute) "logs") /\
    calls (log st0) = [logs_url "sbx 1" "a&b" e_acute].
Proof.
  apply (tool_url_opens_asked_subscription (Some "relay.example")
           (mkToolArgs "sbx 1" (Some "a&b") (Some e_acute) (Some Logs)) 0%N).
  - discriminate.
  - split; [reflexivity|].
    split; intros x [= <-]; reflexivity.
Defined.

(** ** Identifiers written into a URL as they are *)

Lemma length_app_string a b : String.length (a ++ b)%string = String.length a + String.length b.
Proof. induction a as [|c a IH]; simpl; [reflexivity | rewrite IH; reflexivity]. Qed.

Lemma append_inj_l a x y : (a ++ x)%string = (a ++ y)%string -> x = y.
Proof. induction a as [|c a IH]; simpl; [auto|]. intros [= H]. auto. Qed.

Lemma append_inj_r z x y : (x ++ z)%string = (y ++ z)%string -> x = y.
Proof.
  revert y. induction x as [|c x IH]; intros [|d y] H; simpl in H.
  - reflexivity.
  - apply (f_equal String.length) in H. simpl in H. rewrite length_app_string in H. lia.
  - apply (f_equal String.length) in H. simpl in H. rewrite length_app_string in H. lia.
  - injection H as -> H. f_equal. apply IH, H.
Qed.

Lemma form_encode_length s : String.length s <= String.length (form_encode s).
Proof.
  induction s as [|c s IH]; simpl; [lia|].
  rewrite length_app_string. unfold form_encode_byte.
  destruct (form_safe c); [simpl; lia|].
  destruct (N_of_ascii c =? 32)%N; simpl; lia.
Qed.

(** The serializer leaves a string as it is exactly when all its characters
    are letters, digits or one of [*-._]. *)
Lemma form_encode_fixed s : form_encode s = s <-> all_safe s = true.
Proof.
  induction s as [|c s IH]; simpl; [tauto|].
  unfold form_encode_byte. destruct (form_safe c) eqn:Hs; simpl.
  - rewrite <- IH. split; [intros [= H]; exact H | intros ->; reflexivity].
  - split; [|discriminate]. intros H. exfalso.
    destruct (N.eqb_spec (N_of_ascii c) 32) as [E|_].
    + simpl in H. injection H as H _. subst c. discriminate E.
    + simpl in H. injection H as _ H.
      pose proof (form_encode_length s) as L.
      apply (f_equal String.length) in H. simpl in H. lia.
Qed.

(** X13.  The monitoring URLs that [getSandbox], [executeCommand],
    [listSessions] and [executeSessionCommand] write by hand are the URLs
    [getSSEConnectionUrl] returns for the same sandbox exactly when the
    [sandboxId] consists of letters, digits and [*-._]; for any other
    identifier they differ, because the hand-written ones are not
    encoded. *)
Theorem monitoring_urls_agree_iff_safe VERCEL_URL sandboxId :
  (sseMonitoring_sandboxStatus VERCEL_URL sandboxId
   = sseUrl VERCEL_URL (mkToolArgs sandboxId None None (Some SandboxStatus))
   <-> all_safe sandboxId = true) /\
  (sseMonitoring_sessions VERCEL_URL sandboxId
   = sseUrl VERCEL_URL (mkToolArgs sandboxId None None (Some SessionsList))
   <-> all_safe sandboxId = true).
Proof.
  rewrite !sseUrl_shape. unfold sseMonitoring_sandboxStatus, sseMonitoring_sessions.
  cbn [arg_sandboxId arg_sessionId arg_commandId arg_eventType eventType_arg
         eventType_name query_part truthy].
  rewrite <- form_encode_fixed.
  split; (split; [intros H | intros ->; reflexivity]).
  - apply append_inj_l, append_inj_l in H.
    change ("" ++ "" ++ "&eventType=" ++ "sandbox-status")%string
      with "&eventType=sandbox-status" in H.
    apply append_inj_r in H. congruence.
  - apply append_inj_l, append_inj_l in H.
    change ("" ++ "" ++ "&eventType=" ++ "sessions")%string
      with "&eventType=sessions" in H.
    apply append_inj_r in H. congruence.
Qed.

Lemma truthy_nonempty s : s <> EmptyString -> truthy (Some s) = Some s.
Proof. destruct s; [contradiction | reflexivity]. Qed.

(** X14.  For identifiers made of letters, digits and [*-._], the two log
    ones not empty, the URL that [getSessionCommandLogs] returns under
    [sseUrl] when [useSSE] is set is the URL [getSSEConnectionUrl] returns
    for the same identifiers and [eventType] [logs]; its query reads back
    as the four parameters, and (for a non-empty [sandboxId]) opening it
    starts the log stream of exactly that command. *)
Theorem session_logs_url_opens_log_stream VERCEL_URL sandboxId sessionId commandId t :
  all_safe sandboxId = true -> all_safe sessionId = true -> all_safe commandId = true ->
  sandboxId <> EmptyString -> sessionId <> EmptyString -> commandId <> EmptyString ->
  let url := getSessionCommandLogs_sseUrl VERCEL_URL sandboxId sessionId commandId in
  (exists rest,
      getSessionCommandLogs_useSSE VERCEL_URL sandboxId sessionId commandId
      = Formatted ("Real-time Logs for Command " ++ commandId)%string
          (VObj (("message", VStr "Use SSE for real-time log streaming")
                   :: ("sseUrl", VStr url) :: rest))) /\
  url = sseUrl VERCEL_URL (mkToolArgs sandboxId (Some sessionId) (Some commandId) (Some Logs)) /\
  url = (baseUrl VERCEL_URL ++ "/sse?" ++ raw_logs_query sandboxId sessionId commandId)%string /\
  URLSearchParams_parse (raw_logs_query sandboxId sessionId commandId)
  = [("sandboxId", sandboxId); ("sessionId", sessionId);
     ("commandId", commandId); ("eventType", "logs")] /\
  exists st0,
    connect t (URLSearchParams_parse (raw_logs_query sandboxId sessionId commandId))
    = Some st0 /\
    closed st0 = false /\
    calls (log st0) = [logs_url sandboxId sessionId commandId] /\
    pending st0 = [(0, KLogs sandboxId sessionId commandId)].
Proof.
  intros Hsb Hs Hc Nsb Ns Nc url.
  pose proof (all_safe_well_formed _ Hsb) as Wsb.
  pose proof (all_safe_well_formed _ Hs) as Ws.
  pose proof (all_safe_well_formed _ Hc) as Wc.
  apply form_encode_fixed in Hsb, Hs, Hc.
  destruct form_encode_names as (E1 & E2 & E3 & E4 & E5 & _).
  assert (Hq : raw_logs_query sandboxId sessionId commandId
               = URLSearchParams_toString
                   (sse_params (mkToolArgs sandboxId (Some sessionId) (Some commandId)
                                  (Some Logs)))).
  { unfold sse_params, spread.
    cbn [arg_sandboxId arg_sessionId arg_commandId arg_eventType eventType_arg
           eventType_name].
    rewrite (truthy_nonempty _ Ns), (truthy_nonempty _ Nc).
    cbn [app URLSearchParams_toString].
    rewrite E1, E2, E3, E4, E5, Hsb, Hs, Hc. reflexivity. }
  assert (Hp : URLSearchParams_parse (raw_logs_query sandboxId sessionId commandId)
               = [("sandboxId", sandboxId); ("sessionId", sessionId);
                  ("commandId", commandId); ("eventType", "logs")]).
  { rewrite Hq, parse_written
      by (apply sse_params_well_formed; split;
          [exact Wsb | split; intros x [= <-]; assumption]).
    unfold sse_params, spread.
    cbn [arg_sandboxId arg_sessionId arg_commandId arg_eventType eventType_arg
           eventType_name].
    rewrite (truthy_nonempty _ Ns), (truthy_nonempty _ Nc). reflexivity. }
  split; [eexists; reflexivity|].
  split.
  { unfold url, getSessionCommandLogs_sseUrl, sseUrl. rewrite <- Hq. reflexivity. }
  split; [reflexivity|].
  split; [exact Hp|].
  rewrite Hp.
  set (ps := [("sandboxId", sandboxId); ("sessionId", sessionId);
              ("commandId", commandId); ("eventType", "logs")]).
  assert (A1 : truthy (searchParams_get "sandboxId" ps) = Some sandboxId)
    by exact (truthy_nonempty _ Nsb).
  assert (A2 : truthy (searchParams_get "sessionId" ps) = Some sessionId)
    by exact (truthy_nonempty _ Ns).
  assert (A3 : truthy (searchParams_get "commandId" ps) = Some commandId)
    by exact (truthy_nonempty _ Nc).
  rewrite (connect_logs t ps sandboxId A1 sessionId commandId eq_refl A2 A3).
  eexists. repeat split.
Qed.

Lemma session_logs_url_opens_log_stream_witness :
  let url := getSessionCommandLogs_sseUrl None "sbx-1" "sess-1" "cmd-1" in
  (exists rest,
      getSessionCommandLogs_useSSE None "sbx-1" "sess-1" "cmd-1"
      = Formatted ("Real-time Logs for Command " ++ "cmd-1")%string
          (VObj (("message", VStr "Use SSE for real-time log streaming")
                   :: ("sseUrl", VStr url) :: rest))) /\
  url = sseUrl None (mkToolArgs "sbx-1" (Some "sess-1") (Some "cmd-1") (Some Logs)) /\
  url = (baseUrl None ++ "/sse?" ++ raw_logs_query "sbx-1" "sess-1" "cmd-1")%string /\
  URLSearchParams_parse (raw_logs_query "sbx-1" "sess-1" "cmd-1")
  = [("sandboxId", "sbx-1"); ("sessionId", "sess-1");
     ("commandId", "cmd-1"); ("eventType", "logs")] /\
  exists st0,
    connect 0 (URLSearchParams_parse (raw_logs_query "sbx-1" "sess-1" "cmd-1"))
    = Some st0 /\
    closed st0 = false /\
    calls (log st0) = [logs_url "sbx-1" "sess-1" "cmd-1"] /\
    pending st0 = [(0, KLogs "sbx-1" "sess-1" "cmd-1")].
Proof.
  apply (session_logs_url_opens_log_stream None "sbx-1" "sess-1" "cmd-1" 0%N);
    try reflexivity; discriminate.
Defined.

(** ** The URL of [getSSEConnectionUrl], opened *)

Lemma decoded_params_get a :
  searchParams_get "sandboxId" (decoded (sse_params a))
  = Some (utf8_decode (arg_sandboxId a)) /\
  searchParams_get "sessionId" (decoded (sse_params a))
  = option_map utf8_decode (truthy (arg_sessionId a)) /\
  searchParams_get "commandId" (decoded (sse_params a))
  = option_map utf8_decode (truthy (arg_commandId a)) /\
  searchParams_get "eventType" (decoded (sse_params a)) = Some (eventType_arg a).
Proof.
  assert (He : utf8_decode (eventType_arg a) = eventType_arg a).
  { unfold eventType_arg. destruct (arg_eventType a) as [[]|]; reflexivity. }
  unfold sse_params, spread, decoded.
  destruct (truthy (arg_sessionId a)), (truthy (arg_commandId a));
    cbn [map app fst snd]; rewrite He; repeat split.
Qed.

Lemma truthy_decoded o :
  truthy (option_map utf8_decode (truthy o)) = option_map utf8_decode (truthy o).
Proof.
  destruct (truthy o) as [v|] eqn:E; [|reflexivity].
  destruct (truthy_some _ _ E) as [_ Hv]. cbn [option_map].
  apply truthy_nonempty, utf8_decode_nonempty, Hv.
Qed.

(** C10, as stated, fails.  The tool accepts an empty [sandboxId] as
    well, and the URL it then returns carries [sandboxId=]: a client that
    opens it is refused with status 400 before any channel exists, so the
    missing identifiers never surface as an [error] event. *)
Lemma empty_sandboxId_url_refused :
  let a := mkToolArgs "" None None (Some Logs) in
  result_url (getSSEConnectionUrl None a)
  = Some "http://localhost:3000/sse?sandboxId=&eventType=logs" /\
  URLSearchParams_parse "sandboxId=&eventType=logs"
  = [("sandboxId", ""); ("eventType", "logs")] /\
  GET 0 (URLSearchParams_parse "sandboxId=&eventType=logs")
  = PlainResponse 400 "Missing sandboxId parameter" /\
  response_events (GET 0 (URLSearchParams_parse "sandboxId=&eventType=logs")) = [] /\
  connect 0 (URLSearchParams_parse "sandboxId=&eventType=logs") = None.
Proof. repeat split. Qed.

(** C10, amended.  The tool never fails and never looks at what a [logs]
    stream needs: its result carries the URL, whose query, as the route
    parses it, always has the [sandboxId] and [eventType] parameters,
    [eventType] being [sandbox-status] when the argument is not given; the
    query is the form encoding of the arguments and reads back as what was
    written.  Called with [eventType] [logs] and without [sessionId] or
    [commandId], it returns a URL with [eventType=logs] that leaves the
    absent parameter out.  The omission shows only when a client opens
    that URL, and only for a non-empty [sandboxId]: the channel then
    carries [connected] followed by the [error] event about the missing
    identifiers.  For an empty [sandboxId] the route answers 400 instead.
    *)
Theorem sse_url_unvalidated VERCEL_URL a :
  (exists data, getSSEConnectionUrl VERCEL_URL a = Formatted "SSE Connection URL" data) /\
  result_url (getSSEConnectionUrl VERCEL_URL a) = Some (sseUrl VERCEL_URL a) /\
  exists query,
    sseUrl VERCEL_URL a = (baseUrl VERCEL_URL ++ "/sse?" ++ query)%string /\
    query
    = ("sandboxId=" ++ form_encode (arg_sandboxId a)
         ++ query_part "sessionId" (arg_sessionId a)
         ++ query_part "commandId" (arg_commandId a)
         ++ "&eventType=" ++ eventType_arg a)%string /\
    only query_char query = true /\
    URLSearchParams_parse query = decoded (sse_params a) /\
    (well_formed_args a -> URLSearchParams_parse query = sse_params a) /\
    searchParams_get "sandboxId" (URLSearchParams_parse query)
    = Some (utf8_decode (arg_sandboxId a)) /\
    searchParams_get "eventType" (URLSearchParams_parse query) = Some (eventType_arg a) /\
    (arg_eventType a = None -> eventType_arg a = "sandbox-status") /\
    (arg_eventType a = Some Logs ->
     truthy (arg_sessionId a) = None \/ truthy (arg_commandId a) = None ->
     eventType_arg a = "logs" /\
     (truthy (arg_sessionId a) = None ->
      searchParams_get "sessionId" (URLSearchParams_parse query) = None /\
      query_part "sessionId" (arg_sessionId a) = "") /\
     (truthy (arg_commandId a) = None ->
      searchParams_get "commandId" (URLSearchParams_parse query) = None /\
      query_part "commandId" (arg_commandId a) = "") /\
     forall t,
       (arg_sandboxId a <> "" ->
        exists st0,
          connect t (URLSearchParams_parse query) = Some st0 /\
          closed st0 = false /\
          emitted st0
          = [connected_event (utf8_decode (arg_sandboxId a))
               (option_map utf8_decode (truthy (arg_sessionId a)))
               (option_map utf8_decode (truthy (arg_commandId a))) "logs";
             missing_ids_event]) /\
       (arg_sandboxId a = "" ->
        GET t (URLSearchParams_parse query)
        = PlainResponse 400 "Missing sandboxId parameter")).
Proof.
  split; [eexists; reflexivity|].
  split; [reflexivity|].
  exists (URLSearchParams_toString (sse_params a)).
  rewrite parse_written_decoded.
  destruct (decoded_params_get a) as (G1 & G2 & G3 & G4).
  split; [reflexivity|].
  split; [apply sse_query_shape|].
  split; [apply written_chars|].
  split; [reflexivity|].
  split; [intros Hw; apply decoded_well_formed, sse_params_well_formed, Hw|].
  split; [exact G1|]. split; [exact G4|].
  split; [intros H; unfold eventType_arg; rewrite H; reflexivity|].
  intros Hl Hmiss.
  assert (Het : eventType_arg a = "logs")
    by (unfold eventType_arg; rewrite Hl; reflexivity).
  split; [exact Het|].
  split; [intros H; unfold query_part; rewrite G2, H; auto|].
  split; [intros H; unfold query_part; rewrite G3, H; auto|].
  intros t. split.
  - intros Hsb.
    assert (Hid : truthy (searchParams_get "sandboxId" (decoded (sse_params a)))
                  = Some (utf8_decode (arg_sandboxId a))).
    { rewrite G1. apply truthy_nonempty, utf8_decode_nonempty, Hsb. }
    assert (Hty : eventType_of (decoded (sse_params a)) = "logs").
    { unfold eventType_of. rewrite G4, Het. reflexivity. }
    rewrite (connect_logs_missing t (decoded (sse_params a))
               (utf8_decode (arg_sandboxId a)) Hid Hty).
    + eexists. split; [reflexivity|]. split; [reflexivity|].
      rewrite G2, G3, Hty. reflexivity.
    + rewrite G2, G3. destruct Hmiss as [H|H]; rewrite H; auto.
  - intros Hsb. unfold GET. rewrite G1, Hsb. reflexivity.
Qed.

Lemma sse_url_unvalidated_witness :
  (let a := mkToolArgs "sbx 1&x" (Some "s/1") None (Some Logs) in
   sseUrl None a
   = "http://localhost:3000/sse?sandboxId=sbx+1%26x&sessionId=s%2F1&eventType=logs" /\
   URLSearchParams_parse "sandboxId=sbx+1%26x&sessionId=s%2F1&eventType=logs"
   = [("sandboxId", "sbx 1&x"); ("sessionId", "s/1"); ("eventType", "logs")] /\
   exists st0,
     connect 0 (URLSearchParams_parse "sandboxId=sbx+1%26x&sessionId=s%2F1&eventType=logs")
     = Some st0 /\
     closed st0 = false /\
     emitted st0
     = [connected_event "sbx 1&x" (Some "s/1") None "logs"; missing_ids_event]) /\
  (let a := mkToolArgs "" (Some "s/1") None (Some Logs) in
   sseUrl None a = "http://localhost:3000/sse?sandboxId=&sessionId=s%2F1&eventType=logs" /\
   GET 0 (URLSearchParams_parse "sandboxId=&sessionId=s%2F1&eventType=logs")
   = PlainResponse 400 "Missing sandboxId parameter").
Proof.
  cbv zeta. split.
  - pose proof (sse_url_unvalidated None (mkToolArgs "sbx 1&x" (Some "s/1") None (Some Logs)))
      as (_ & _ & query & U & Q & _ & P & _ & _ & _ & _ & H).
    assert (E : query = "sandboxId=sbx+1%26x&sessionId=s%2F1&eventType=logs")
      by (rewrite Q; reflexivity).
    subst query.
    split; [reflexivity|].
    split; [reflexivity|].
    destruct (H eq_refl (or_intror eq_refl)) as (_ & _ & _ & C).
    apply (proj1 (C 0%N)). discriminate.
  - pose proof (sse_url_unvalidated None (mkToolArgs "" (Some "s/1") None (Some Logs)))
      as (_ & _ & query & U & Q & _ & P & _ & _ & _ & _ & H).
    assert (E : query = "sandboxId=&sessionId=s%2F1&eventType=logs")
      by (rewrite Q; reflexivity).
    subst query.
    split; [reflexivity|].
    destruct (H eq_refl (or_intror eq_refl)) as (_ & _ & _ & C).
    apply (proj2 (C 0%N)). reflexivity.
Defined.

(** ** The pace of a poll driver *)

Lemma call_count_same st st' :
  calls (log st') = calls (log st) -> call_count st' = call_count st.
Proof. unfold call_count. intros ->. reflexivity. Qed.

Lemma paced_keep k t0 st st' :
  paced k t0 st ->
  calls (log st') = calls (log st) -> (now st <= now st')%N ->
  (interval st' = interval st \/ interval st' = None
   \/ exists sandboxId, interval st' = Some (timer k sandboxId (now st'))) ->
  paced k t0 st'.
Proof.
  intros [H1 H2] Hc Hn Hi. unfold paced. rewrite (call_count_same _ _ Hc).
  split; [lia|].
  intros iv E. destruct Hi as [Hi|[Hi|(sb & Hi)]].
  - apply H2. congruence.
  - congruence.
  - rewrite Hi in E. injection E as <-. simpl. lia.
Qed.

Lemma calls_enqueue e st : calls (log (add_effect (Enqueue e) st)) = calls (log st).
Proof. simpl. rewrite calls_app. simpl. apply app_nil_r. Qed.

Lemma calls_cleaned st : calls (log (cleaned st)) = calls (log st).
Proof.
  destruct (log_cleaned st) as (effs & L & C & _). rewrite L, calls_app, C. apply app_nil_r.
Qed.

Lemma paced_step k sandboxId t0 i st :
  polling k sandboxId st -> paced k t0 st -> paced k t0 (step i st).
Proof.
  intros (Hp & Hiv & Hl) H. destruct i; simpl; rewrite ?Hl; try exact H.
  - apply (paced_keep k t0 st); simpl; auto. lia.
  - destruct (take_pending id (pending st)) as [[c rest]|] eqn:E; [|exact H].
    destruct (take_pending_Forall _ _ _ _ _ Hp E) as [Hk _]. simpl in Hk.
    set (st' := set_pending (next_id st) rest st).
    destruct (closed st') eqn:Hc; destruct Hk as [-> | ->].
    + rewrite initial_closed by assumption. exact H.
    + rewrite tick_closed by assumption. exact H.
    + rewrite initial_open by assumption.
      apply (paced_keep k t0 st); simpl.
      * exact H.
      * rewrite !calls_app. simpl. rewrite !app_nil_r. reflexivity.
      * lia.
      * right; right. exists sandboxId. reflexivity.
    + rewrite tick_open by assumption.
      apply (paced_keep k t0 st); simpl; auto; [|lia].
      rewrite calls_app. simpl. apply app_nil_r.
  - destruct (interval st) as [iv|] eqn:Ei; [|exact H].
    destruct (N.leb_spec (iv_due iv) (now st)) as [Hd|_]; [|exact H].
    destruct (Hiv iv eq_refl) as [Hk _]. destruct H as [H1 H2].
    specialize (H2 iv Ei).
    unfold paced, call_count in *. simpl.
    rewrite calls_app, length_app. simpl. rewrite Hk.
    rewrite Nat2N.inj_add. simpl N.of_nat. rewrite N.mul_add_distr_r, N.mul_1_l.
    split; [lia|]. intros iv' [= <-]. simpl. lia.
  - unfold detached. destruct (closed st) eqn:Hc.
    + rewrite on_abort_closed by assumption.
      apply (paced_keep k t0 st); simpl; auto.
      * apply calls_cleaned.
      * rewrite now_cleaned. lia.
      * unfold cleaned. destruct (cleanupFunction st); simpl; auto.
    + rewrite on_abort_open by assumption.
      apply (paced_keep k t0 st); simpl; auto.
      * rewrite !calls_app. simpl. rewrite !app_nil_r. apply calls_cleaned.
      * rewrite now_cleaned. lia.
      * unfold cleaned. destruct (cleanupFunction st); simpl; auto.
Qed.

(** X16.  A poll driver keeps the pace of its period (5 s for status, 10 s
    for sessions): on a subscription opened at instant [t0], after n
    upstream calls at least (n - 1) periods have passed since [t0], whatever
    the upstream and the client do. *)
Theorem poll_rate_limited t0 params sandboxId k tr :
  truthy (searchParams_get "sandboxId" params) = Some sandboxId ->
  poll_kind_of (eventType_of params) = Some k ->
  exists st0,
    connect t0 params = Some st0 /\
    (call_count (run tr st0) * pollInterval k + t0
     <= now (run tr st0) + pollInterval k)%N.
Proof.
  intros Hid Hk.
  destruct (poll_session_polling t0 params sandboxId k Hid Hk) as (st0 & Hc & Hp & Hcalls).
  exists st0. split; [exact Hc|].
  assert (H0 : paced k t0 st0).
  { rewrite (connect_poll t0 params sandboxId Hid k Hk) in Hc. injection Hc as <-.
    split; [|discriminate]. unfold call_count. cbn [log calls length N.of_nat now].
    change (N.pos (Pos.of_succ_nat 0)) with 1%N. lia. }
  clear Hc Hcalls. revert st0 Hp H0.
  induction tr as [|i tr IH]; intros st Hp H; simpl; [apply H|].
  apply IH; [apply polling_step; exact Hp | apply (paced_step k sandboxId); assumption].
Qed.

Lemma poll_rate_limited_witness :
  exists st0,
    connect 0 [("sandboxId", "sbx-1")] = Some st0 /\
    (call_count (run slow_upstream st0) * pollInterval Status + 0
     <= now (run slow_upstream st0) + pollInterval Status)%N.
Proof.
  apply (poll_rate_limited 0 [("sandboxId", "sbx-1")] "sbx-1" Status slow_upstream).
  - reflexivity.
  - reflexivity.
Defined.

(** ** What a poll subscription writes *)

Lemma poll_event_name k sandboxId t r :
  In (ev_name (poll_event k sandboxId t r)) (poll_names k).
Proof. destruct k, r; simpl; auto. Qed.

Lemma poll_step_names k sandboxId i st :
  polling k sandboxId st ->
  exists evs,
    emitted (step i st) = emitted st ++ evs /\
    Forall (fun e => In (ev_name e) (poll_names k)) evs.
Proof.
  intros (Hp & _ & Hl).
  assert (Hnil : exists evs, emitted st = emitted st ++ evs /\
                             Forall (fun e => In (ev_name e) (poll_names k)) evs).
  { exists []. rewrite app_nil_r. auto. }
  destruct i; simpl; rewrite ?Hl; try exact Hnil.
  - destruct (take_pending id (pending st)) as [[c rest]|] eqn:E; [|exact Hnil].
    destruct (take_pending_Forall _ _ _ _ _ Hp E) as [Hk _]. simpl in Hk.
    set (st' := set_pending (next_id st) rest st).
    destruct (closed st') eqn:Hc; destruct Hk as [-> | ->].
    + rewrite initial_closed by assumption. exact Hnil.
    + rewrite tick_closed by assumption. exact Hnil.
    + rewrite initial_open by assumption.
      exists [poll_event k sandboxId (now st') r]. split.
      * unfold emitted. simpl. rewrite !events_app. simpl. rewrite app_nil_r. reflexivity.
      * constructor; [apply poll_event_name | constructor].
    + rewrite tick_open by assumption.
      exists [poll_event k sandboxId (now st') r]. split.
      * rewrite emitted_enqueue. reflexivity.
      * constructor; [apply poll_event_name | constructor].
  - destruct (interval st) as [iv|]; [|exact Hnil].
    destruct (iv_due iv <=? now st)%N; [|exact Hnil].
    exists []. split; [|constructor].
    unfold emitted. simpl. rewrite events_app. reflexivity.
  - unfold detached. destruct (closed st) eqn:Hc.
    + rewrite on_abort_closed by assumption. exists []. split; [|constructor].
      change (emitted (add_fault controller_closed (cleaned st)))
        with (emitted (cleaned st)).
      rewrite emitted_cleaned, app_nil_r. reflexivity.
    + rewrite on_abort_open by assumption. exists [disconnected_event]. split.
      * unfold emitted. simpl. rewrite !events_app. simpl. rewrite app_nil_r.
        fold (emitted (cleaned st)). rewrite emitted_cleaned. reflexivity.
      * constructor; [destruct k; simpl; auto | constructor].
Qed.

(** X17.  A poll subscription writes only events of four names:
    [connected], its own data event ([sandbox-status] or
    [sessions-update]), [error] and [disconnected]; it never writes an
    event of the other poll kind or of the log driver. *)
Theorem poll_vocabulary t params sandboxId k tr :
  truthy (searchParams_get "sandboxId" params) = Some sandboxId ->
  poll_kind_of (eventType_of params) = Some k ->
  exists st0,
    connect t params = Some st0 /\
    Forall (fun e => In (ev_name e) (poll_names k)) (emitted (run tr st0)).
Proof.
  intros Hid Hk.
  destruct (poll_session_polling t params sandboxId k Hid Hk) as (st0 & Hc & Hp & _).
  exists st0. split; [exact Hc|].
  assert (H0 : Forall (fun e => In (ev_name e) (poll_names k)) (emitted st0)).
  { rewrite (connect_poll t params sandboxId Hid k Hk) in Hc. injection Hc as <-.
    repeat constructor. }
  clear Hc. revert st0 Hp H0.
  induction tr as [|i tr IH]; intros st Hp H; simpl; [exact H|].
  apply IH; [apply polling_step; exact Hp|].
  destruct (poll_step_names k sandboxId i st Hp) as (evs & E & Hn).
  rewrite E. apply Forall_app. split; assumption.
Qed.

Lemma poll_vocabulary_witness :
  exists st0,
    connect 0 [("sandboxId", "sbx-1")] = Some st0 /\
    Forall (fun e => In (ev_name e) (poll_names Status))
      (emitted (run (slow_upstream ++ late_answers ++ [Abort]) st0)).
Proof.
  apply (poll_vocabulary 0 [("sandboxId", "sbx-1")] "sbx-1" Status).
  - reflexivity.
  - reflexivity.
Defined.

(** ** The default kind *)

Lemma searchParams_get_app name p q :
  searchParams_get name (p ++ q)
  = match searchParams_get name p with
    | Some v => Some v
    | None => searchParams_get name q
    end.
Proof.
  induction p as [|[k v] p IH]; simpl; [reflexivity|].
  destruct (k =? name)%string; [reflexivity | exact IH].
Qed.

(** X15.  A request whose [eventType] is absent or empty is served exactly
    as the same request with [eventType=sandbox-status] added: the two
    responses are equal, the echoed parameters included. *)
Theorem default_eventType t params :
  truthy (searchParams_get "eventType" params) = None ->
  GET t (params ++ [("eventType", "sandbox-status")]) = GET t params.
Proof.
  intros H.
  assert (E1 : eventType_of (params ++ [("eventType", "sandbox-status")])
               = "sandbox-status").
  { unfold eventType_of. rewrite searchParams_get_app.
    destruct (searchParams_get "eventType" params) as [[|c s]|];
      try reflexivity; discriminate H. }
  assert (E2 : eventType_of params = "sandbox-status").
  { unfold eventType_of. rewrite H. reflexivity. }
  assert (O : forall name v,
             ("eventType" =? name)%string = false ->
             searchParams_get name (params ++ [("eventType", v)])
             = searchParams_get name params).
  { intros name v Hn. rewrite searchParams_get_app.
    cbn [searchParams_get]. rewrite Hn.
    destruct (searchParams_get name params); reflexivity. }
  unfold GET. rewrite E1, E2, !O by reflexivity. reflexivity.
Qed.

Lemma default_eventType_witness :
  GET 7 ([("sandboxId", "sbx-1"); ("eventType", "")] ++ [("eventType", "sandbox-status")])
  = GET 7 [("sandboxId", "sbx-1"); ("eventType", "")].
Proof.
  apply (default_eventType 7 [("sandboxId", "sbx-1"); ("eventType", "")]).
  reflexivity.
Defined.
